(** * CS-Profiler: the SimpleSerial packet protocol and the campaign loop

    A shallow embedding of [src/simpleserial/simpleserial.py] (class
    [TargetSerial]) and of [src/profile_target.py] (class [CSProfiler]),
    together with the properties of the specification that concern them.

    Conventions of the embedding:
    - a Python [bytes]/[bytearray] is a [list N] (every element below 256);
    - a Python [int] coming from the caller is a [Z];
    - a list index, a length and a loop counter are [nat];
    - a [dict] with string keys is a [gmap string _];
    - a function that can raise returns a [result]; a method that also acts
      on a device threads the device state explicitly. *)

From Stdlib Require Import ZArith NArith QArith Lia.
From stdpp Require Import base option list strings pretty gmap.
From Equations Require Import Equations.

(** ** Python exceptions and results *)

Inductive exn_class :=
| ValueError | KeyError | TypeError | IndexError | AttributeError
| RuntimeError | AssertionError | UnboundLocalError | UnicodeEncodeError
| TimeoutError | ResetTimeoutError | Exception.

(** An exception object: its class and the single argument it was built
    with.  [RetryError] is the wrapper of the [tenacity] library: [shown] is
    its rendering by [str] and [last_attempt] the exception of its last
    attempt, when there is one. *)
Inductive exn :=
| Exn (cls : exn_class) (arg : string)
| RetryError (shown : string) (last_attempt : option (exn_class * string)).

Inductive result (A : Type) :=
| Ok (a : A)
| Raise (e : exn).
Arguments Ok {A} a.
Arguments Raise {A} e.

Definition raise {A} (c : exn_class) (msg : string) : result A :=
  Raise (Exn c msg).

Global Instance exn_class_eq_dec : EqDecision exn_class.
Proof. solve_decision. Defined.
Global Instance exn_eq_dec : EqDecision exn.
Proof. solve_decision. Defined.

(** [str(e)]: the argument, except for [KeyError] whose [__str__] is the
    [repr] of the argument (single quotes around a plain key). *)
Definition str_exn (e : exn) : string :=
  match e with
  | Exn KeyError arg => "'" +:+ arg +:+ "'"
  | Exn _ arg => arg
  | RetryError shown _ => shown
  end.

(** Reading a local variable: a name that no executed statement has bound
    raises [UnboundLocalError]. *)
Definition read_local {A} (name : string) (v : option A) : result A :=
  match v with
  | Some a => Ok a
  | None =>
      raise UnboundLocalError
        ("cannot access local variable '" +:+ name +:+
         "' where it is not associated with a value")
  end.

(** Decimal rendering of an integer, as an f-string does. *)
Definition str_Z (z : Z) : string := pretty z.

(** [l[i:j]] for indices [0 <= i], [0 <= j]. *)
Definition slice {A} (l : list A) (i j : nat) : list A :=
  take (j - i) (drop i l).

(** ** State and exceptions

    [M S A]: a computation on a state [S] that returns an [A] or raises; the
    state reached is kept in both cases, as an exception does not undo the
    effects that came before it. *)

Definition M (S A : Type) : Type := S -> result A * S.

Definition ret {S A} (a : A) : M S A := fun s => (Ok a, s).

Definition throw {S A} (e : exn) : M S A := fun s => (Raise e, s).

Definition bind {S A B} (m : M S A) (k : A -> M S B) : M S B :=
  fun s =>
    match m s with
    | (Ok a, s') => k a s'
    | (Raise e, s') => (Raise e, s')
    end.

(** [try: m except Exception as e: h e]. *)
Definition try_except {S A} (m : M S A) (h : exn -> M S A) : M S A :=
  fun s =>
    match m s with
    | (Ok a, s') => (Ok a, s')
    | (Raise e, s') => h e s'
    end.

Definition lift_result {S A} (r : result A) : M S A := fun s => (r, s).

Definition get {S} : M S S := fun s => (Ok s, s).
Definition modify {S} (f : S -> S) : M S unit := fun s => (Ok tt, f s).

(** Running a computation of a component inside the object that holds it. *)
Definition zoom {S T A} (proj : S -> T) (upd : T -> S -> S) (m : M T A)
  : M S A :=
  fun s => let '(r, t') := m (proj s) in (r, upd t' s).

Declare Scope py_scope.
Delimit Scope py_scope with py.
Notation "'let*' x := m 'in' k" := (bind m (fun x => k))
  (at level 10, x name, m at level 100, k at level 200, only parsing)
  : py_scope.
Notation "'let*' ' pat := m 'in' k" :=
  (bind m (fun x => match x with pat => k end))
  (at level 10, pat pattern, m at level 100, k at level 200, only parsing)
  : py_scope.

(** [D S A]: a computation that contains a [while] loop whose number of
    turns the program does not bound.  It is run with a bound on the turns
    of each such loop; [None] means that the bound was reached. *)

Definition D (S A : Type) : Type := S -> option (result A * S).

Definition retD {S A} (a : A) : D S A := fun s => Some (Ok a, s).

Definition bindD {S A B} (m : D S A) (k : A -> D S B) : D S B :=
  fun s =>
    match m s with
    | Some (Ok a, s') => k a s'
    | Some (Raise e, s') => Some (Raise e, s')
    | None => None
    end.

Definition terminating {S A} (m : M S A) : D S A := fun s => Some (m s).

Declare Scope loop_scope.
Delimit Scope loop_scope with loop.
Notation "'let*' x := m 'in' k" := (bindD m (fun x => k))
  (at level 10, x name, m at level 100, k at level 200, only parsing)
  : loop_scope.

(** A value together with the equation that names it, for definitions by
    well-founded recursion that branch on a computed value. *)
Definition inspect {A} (a : A) : {b : A | a = b} := exist _ a eq_refl.

(** ** The packet codec: static methods of [TargetSerial] *)

Module Codec.

(** One turn of the inner loop of [_calc_crc]. *)
Definition crc_shift (crc : N) : N :=
  if negb (N.land crc 0x80 =? 0)%N
  then N.land (N.lxor (N.shiftl crc 1) 0x4D) 0xFF
  else N.land (N.shiftl crc 1) 0xFF.

(** The body of [for b in buf]. *)
Definition crc_byte (crc b : N) : N :=
  Nat.iter 8 crc_shift (N.lxor crc b).

(** [_calc_crc]: on a bytes object no operation of the body can fail, so
    the [RuntimeError] wrapper is not reachable. *)
Definition _calc_crc (buf : list N) : N :=
  fold_left crc_byte buf 0%N.

(** The local variables of [_cobs_stuff_data]. *)
Record stuff_state := mk_stuff
  { out : list N; code : N; code_index : nat }.

(** The body of [for b in buf] in [_cobs_stuff_data]. *)
Definition stuff_step (frame_byte : N) (st : stuff_state) (b : N)
  : stuff_state :=
  let st1 :=
    if (b =? frame_byte)%N || (code st =? 0xFF)%N then
      let closed := <[code_index st := code st]> (out st) in
      {| out := closed ++ [0%N]; code := 1; code_index := length closed |}
    else st in
  if negb (b =? frame_byte)%N then
    {| out := out st1 ++ [b]; code := code st1 + 1;
       code_index := code_index st1 |}
  else st1.

Definition stuff_init : stuff_state :=
  {| out := [0%N]; code := 1; code_index := 0 |}.

Definition _cobs_stuff_data (buf : list N) (frame_byte : N) : list N :=
  match buf with
  | [] => []
  | _ =>
      let st := fold_left (stuff_step frame_byte) buf stuff_init in
      <[code_index st := code st]> (out st)
  end.

(** The [while index < length] loop of [_cobs_unstuff_data].  A code byte
    is at least 1 when the loop goes on, so [index] grows at every turn. *)
Equations? unstuff_loop (buf : list N) (frame_byte : N)
    (index : nat) (out : list N) : result (list N)
    by wf (length buf - index) lt :=
  unstuff_loop buf frame_byte index out with inspect (buf !! index) := {
    | exist _ None _ => Ok out
    | exist _ (Some code) Hcode with decide (code = 0%N) := {
      | left _ => raise ValueError "Invalid COBS: code byte cannot be 0"
      | right Hnz with decide (length buf < S index + N.to_nat code - 1) := {
        | left _ =>
            raise ValueError
              "Invalid COBS: block extends past end of buffer"
        | right Hend =>
            let index1 := S index in
            let end_ := index1 + N.to_nat code - 1 in
            let out1 := out ++ slice buf index1 end_ in
            let out2 :=
              if (code <? 0xFF)%N && bool_decide (end_ < length buf)
              then out1 ++ [frame_byte] else out1 in
            unstuff_loop buf frame_byte end_ out2 } } }.
Proof.
  apply lookup_lt_Some in Hcode. lia.
Qed.

Definition _cobs_unstuff_data (buf : list N) (frame_byte : N)
  : result (list N) :=
  match buf with
  | [] => Ok []
  | _ => unstuff_loop buf frame_byte 0 []
  end.

End Codec.

(** ** The serial driver

    [self.ser] is an instance of a driver class
    ([SimpleSerial_ChipWhispererLite]) that lies outside the sources at
    hand, so it is taken as an interface: five methods acting on the state
    [D] of the device, each of which may raise. *)

Class SerialDriver (D : Type) := {
  ser_read_bytes : Z -> Z -> M D (list N);
  ser_peek_bytes : Z -> Z -> M D (list N);
  ser_write : list N -> Z -> M D unit;
  ser_inWaiting : M D Z;
  ser_flush : M D unit
}.

(** ** Class [TargetSerial] *)

Module TargetSerial.

Import Codec.

Definition _frame_byte : list N := [0%N].
Definition _reset_sequence : list N := [0; 0; 0; 114; 0; 0; 0]%N.
Definition _simple_ack : list N := [0%N].

(** What a caller may pass as a command: an [int], a [str], or an object
    of another type (of which only the name of the type matters). *)
Inductive cmd_arg :=
| CmdInt (z : Z)
| CmdStr (s : string)
| CmdOther (type_name : string).

(** What a caller may pass as data: [bytes] or [bytearray], a list or
    tuple of [int], a [str], an [int], or an object of another type (of
    which the name of the type and the truth value matter). *)
Inductive data_arg :=
| DBytes (b : list N)
| DInts (l : list Z)
| DStr (s : string)
| DInt (z : Z)
| DOther (type_name : string) (truth : bool).

(** [bool(data)]. *)
Definition truthy (d : data_arg) : bool :=
  match d with
  | DBytes b => negb (bool_decide (b = []))
  | DInts l => negb (bool_decide (l = []))
  | DStr s => negb (bool_decide (s = ""))
  | DInt z => negb (z =? 0)%Z
  | DOther _ t => t
  end.

(** [type(cmd)], as an f-string renders it. *)
Definition type_name (cmd : cmd_arg) : string :=
  match cmd with
  | CmdInt _ => "<class 'int'>"
  | CmdStr _ => "<class 'str'>"
  | CmdOther ty => ty
  end.

Definition type_convert_cmd (cmd : cmd_arg) : result N :=
  (* Convert str to int (use first character) *)
  let converted : result cmd_arg :=
    match cmd with
    | CmdStr EmptyString => raise ValueError "Command string cannot be empty"
    | CmdStr (String c _) => Ok (CmdInt (Z.of_N (Ascii.N_of_ascii c)))
    | _ => Ok cmd
    end in
  match converted with
  | Raise e => Raise e
  | Ok (CmdInt z) =>
      (* Verify value range *)
      if negb ((0 <=? z)%Z && (z <=? 255)%Z) then
        raise ValueError
          ("Command `" +:+ str_Z z +:+ "` out of byte range (0-255)")
      else Ok (Z.to_N z)
  | Ok cmd =>
      (* Verify type *)
      raise TypeError ("Unsupported command type: " +:+ type_name cmd)
  end.

(** [bytearray(l)] for a list of [int]. *)
Fixpoint bytearray_of_ints (l : list Z) : result (list N) :=
  match l with
  | [] => Ok []
  | z :: l' =>
      if (0 <=? z)%Z && (z <=? 255)%Z then
        match bytearray_of_ints l' with
        | Ok b => Ok (Z.to_N z :: b)
        | Raise e => Raise e
        end
      else raise ValueError "byte must be in range(0, 256)"
  end.

(** [s.encode("ascii")]; the message of the error, which quotes the
    offending character and its position, is shortened. *)
Fixpoint encode_ascii (s : string) : result (list N) :=
  match s with
  | EmptyString => Ok []
  | String c s' =>
      if (Ascii.N_of_ascii c <? 128)%N then
        match encode_ascii s' with
        | Ok b => Ok (Ascii.N_of_ascii c :: b)
        | Raise e => Raise e
        end
      else raise UnicodeEncodeError "'ascii' codec can't encode character"
  end.

Definition type_convert_data (data : data_arg) : result (list N) :=
  match data with
  | DInts l => bytearray_of_ints l
  | DStr s => encode_ascii s
  | DInt z =>
      if negb ((0 <=? z)%Z && (z <=? 255)%Z) then
        raise ValueError ("Integer out of byte range: " +:+ str_Z z)
      else Ok [Z.to_N z]
  | DBytes b => Ok b
  | DOther ty _ => raise TypeError ("Unsupported data type: " +:+ ty)
  end.

(** [buf.endswith(suffix)]. *)
Definition endswith (buf suffix : list N) : bool :=
  bool_decide (drop (length buf - length suffix) buf = suffix).

(** [deque(maxlen=n).append(b)]: only the last [n] items are kept. *)
Definition deque_append (maxlen : nat) (buffer : list N) (b : N) : list N :=
  let grown := buffer ++ [b] in
  drop (length grown - maxlen) grown.

Section Methods.
Context {D : Type} `{!SerialDriver D}.
Local Open Scope py_scope.

Definition write (data : data_arg) (timeout : Z) : M D unit :=
  let* data := lift_result (type_convert_data data) in
  ser_write data timeout.

(** [send_packet]: in the branch of a packet with data the packet is
    assembled in [pkt], but the name handed to [write] is [buf], which
    only the other branch binds. *)
Definition send_packet (cmd : cmd_arg) (data : option data_arg)
    (timeout : Z) : M D unit :=
  let* cmd := lift_result (type_convert_cmd cmd) in
  let* data :=
    match data with
    | Some d =>
        if truthy d then
          let* b := lift_result (type_convert_data d) in ret (Some b)
        else ret None
    | None => ret None
    end in
  match data with
  | None | Some [] =>
      (* Packet without data (just send command and terminator) *)
      let buf := [cmd; 0%N] in
      write (DBytes buf) timeout
  | Some data =>
      (* Packet with data (send encoded packet) *)
      let buf : option (list N) := None in
      let crc := _calc_crc data in
      let block := data ++ [crc] in
      let encoded := _cobs_stuff_data block 0 in
      let pkt := [cmd] ++ encoded ++ [0%N] in
      let* buf := lift_result (read_local "buf" buf) in
      write (DBytes buf) timeout
  end.

Definition read (num_bytes timeout : Z) : M D (list N) :=
  let* num_bytes := (if (num_bytes =? 0)%Z then ser_inWaiting
                else ret num_bytes) in
  let timeout := if (timeout =? 0)%Z then 1000000000000%Z else timeout in
  ser_read_bytes num_bytes timeout.

(** [peek] calls the driver and falls off the end of its body: the value
    of the call is Python's [None]. *)
Definition peek (num_bytes timeout : Z) : M D (option (list N)) :=
  let* _ := ser_peek_bytes num_bytes timeout in
  ret None.

(** The loop of [read_until].  The clock is not part of the model:
    [turns] is the number of turns that [time.time() < end_time] lets
    through. *)
Fixpoint read_until_loop (turns : nat) (sequence result buffer : list N)
  : M D (list N) :=
  match turns with
  | O => ret result
  | S turns' =>
      let* byte_read := ser_read_bytes 1 10 in
      match byte_read with
      | [] => read_until_loop turns' sequence result buffer
      | b :: _ =>
          let result := result ++ [b] in
          let buffer := deque_append (length sequence) buffer b in
          if bool_decide (length buffer = length sequence)
             && bool_decide (buffer = sequence)
          then ret result
          else read_until_loop turns' sequence result buffer
      end
  end.

Definition read_until (sequence : data_arg) (turns : nat)
  : M D (list N) :=
  let* sequence := lift_result (type_convert_data sequence) in
  read_until_loop turns sequence [] [].

(** What [read_packet] does with the bytes that [read_until] returned. *)
Definition decode_frame (buf : list N) : result (N * option (list N)) :=
  if negb (endswith buf _frame_byte) then
    raise TimeoutError
      "receive_packet: Timeout waiting for packet terminator"
  else
    (* Strip terminator *)
    let buf := take (length buf - 1) buf in
    if bool_decide (length buf = 1) then
      (* Packet without data *)
      match buf !! 0 with
      | Some cmd => Ok (cmd, None)
      | None => raise IndexError "index out of range"
      end
    else
      (* Packet with data *)
      match buf !! 0 with
      | None => raise IndexError "index out of range"
      | Some cmd =>
          let encoded := drop 1 buf in
          match _cobs_unstuff_data encoded 0 with
          | Raise e => Raise e
          | Ok decoded =>
              if bool_decide (length decoded < 1) then
                raise ValueError "read_packet: decode failed"
              else
                let data := take (length decoded - 1) decoded in
                match last decoded with
                | None => raise IndexError "index out of range"
                | Some crc =>
                    if negb (_calc_crc data =? crc)%N then
                      raise ValueError "read_packet: CRC mismatch"
                    else Ok (cmd, Some data)
                end
          end
      end.

Definition read_packet (turns : nat) : M D (N * option (list N)) :=
  let* buf := read_until (DBytes _frame_byte) turns in
  lift_result (decode_frame buf).

End Methods.

End TargetSerial.

(** ** Class [CSProfiler] *)

Module CSProfiler.

Local Open Scope py_scope.

(** *** Configuration classes ([config_classes.py]) *)

(** [GlitchConfig]; its two informational fields (the pulse as measured
    with an oscilloscope) take no part in the control flow and are left
    out. *)
Record GlitchConfig := mk_GlitchConfig {
  probe : string;
  voltage : Z;
  pulse_width : Z;
  pulse_spacing : Z;
  pulse_repeats : Z;
  pulse_offset : Z;
  num_executions : Z;
  dead_timeout : Z;
  ack_timeout : Z
}.

(** Extra data that a handler or an execution may return: a [dict], a
    [str], an [int], a [list], or an object of another type. *)
Inductive extradata :=
| EDict (d : list (string * string))
| EStr (s : string)
| EInt (z : Z)
| EList (l : list Z)
| EOther (type_name : string) (truth : bool).

(** [bool(extradata)]. *)
Definition extradata_truthy (x : extradata) : bool :=
  match x with
  | EDict d => negb (bool_decide (d = []))
  | EStr s => negb (bool_decide (s = ""))
  | EInt z => negb (z =? 0)%Z
  | EList l => negb (bool_decide (l = []))
  | EOther _ t => t
  end.

(** *** The hardware

    The ChipWhisperer, the ChipSHOUTER, the pulse generator and the
    serial session are collaborators outside the sources at hand.  The
    model keeps the [trace] of what the profiler asks of them; what they
    answer is given by the environment as a function of the trace so
    far. *)

Inductive hw_action :=
| CwResetTarget
| CwPowerCycleUsb
| CwFlash (binary_path : string)
| CsPowerCycleUsb
| CsDisarm
| CsSetVoltage (v : Z)
| DelaySetParameters (offset length spacing repeats : Z)
| SerialFlush
| SerialConnect
| TestExecution (position_index config_index : nat) (execution_index : Z).

(** What [self.test_execution] returns: a tuple of three or of two. *)
Inductive exec_tuple :=
| Tuple3 (next_execution_index : Z) (result_category : string)
    (data : option extradata)
| Tuple2 (next_execution_index : Z) (result_category : string).

(** What a call of [self.test_execution] comes to. *)
Inductive exec_outcome :=
| Returns (t : exec_tuple)
| Raises (e : exn).

Record World := mk_World {
  trace : list hw_action;
  (** the exception, if any, that an action raises *)
  faults : list hw_action -> hw_action -> option exn;
  (** whether the reset sequence is read in time after a reset pulse *)
  reset_seen : list hw_action -> bool;
  (** the outcome of an execution *)
  exec : list hw_action -> nat -> nat -> Z -> exec_outcome
}.

Definition log (a : hw_action) (w : World) : World :=
  {| trace := trace w ++ [a]; faults := faults w;
     reset_seen := reset_seen w; exec := exec w |}.

(** One request to a collaborator. *)
Definition hw (a : hw_action) : M World unit :=
  fun w =>
    match faults w (trace w) a with
    | Some e => (Raise e, log a w)
    | None => (Ok tt, log a w)
    end.

(** The [for _ in range(retries)] loop of [reset_target]: [true] stands
    for its [return 0]. *)
Fixpoint reset_target_loop (n : nat) : M World bool :=
  match n with
  | O => ret false
  | S n' =>
      let* _ := hw CwResetTarget in
      let* w := get in
      if reset_seen w (trace w) then ret true else reset_target_loop n'
  end.

Definition reset_target (retries : nat) : M World Z :=
  let* seen := reset_target_loop retries in
  if seen then ret 0%Z
  else throw (Exn ResetTimeoutError
                ("Failed to reset target after " +:+ pretty retries
                 +:+ " tries!")).

Definition power_cycle_target : M World unit := hw CwPowerCycleUsb.

Definition configure_chipshouter (glitch_config : GlitchConfig)
  : M World unit :=
  let* _ := hw (CsSetVoltage (voltage glitch_config)) in
  hw (DelaySetParameters (pulse_offset glitch_config)
        (pulse_width glitch_config) (pulse_spacing glitch_config)
        (pulse_repeats glitch_config)).

(** *** Packets and their handlers *)

(** What a handler returns: a [str], a tuple of two, or something else. *)
Inductive handler_ret :=
| RStr (result_category : string)
| RTuple2 (result_category : string) (data : option extradata)
| ROther (type_name : string).

(** The handler of a packet: the method of the class
    [SimpleSerialPacket], one of the three handlers of [CSProfiler], or a
    function given by the caller. *)
Inductive handler_impl :=
| HDefault
| nofaultPacketHandler
| resetPacketHandler
| faultPacketHandler
| HExternal (f : option (list N) -> M World handler_ret).

Record SimpleSerialPacket := mk_packet {
  command : N;
  description : string;
  handler : handler_impl
}.

(** [SimpleSerialPacket.__init__]. *)
Definition new_packet (command : TargetSerial.cmd_arg)
    (description : string) (externalHandler : option handler_impl)
  : result SimpleSerialPacket :=
  match TargetSerial.type_convert_cmd command with
  | Raise e => Raise e
  | Ok c =>
      Ok {| command := c; description := description;
            handler := default HDefault externalHandler |}
  end.

(** A value of a dictionary of results: an [int], or a list whose items
    are counters or groups of extra data. *)
Inductive pyitem :=
| IInt (z : Z)
| IGroup (position_index : nat) (data : list extradata).

Inductive pyval :=
| PInt (z : Z)
| PList (l : list pyitem).

Record CSProfiler := mk_CSProfiler {
  glitch_configs : list GlitchConfig;
  num_positions : nat;
  simpleserial_config : list SimpleSerialPacket;
  valid_commands : list N;
  result_types : gmap string string;
  _results : list (gmap string pyval);
  results : list (gmap string pyval);
  catched_errors : list (nat * string);
  world : World
}.

Definition set_world (w : World) (p : CSProfiler) : CSProfiler :=
  {| glitch_configs := glitch_configs p; num_positions := num_positions p;
     simpleserial_config := simpleserial_config p;
     valid_commands := valid_commands p; result_types := result_types p;
     _results := _results p; results := results p;
     catched_errors := catched_errors p; world := w |}.

Definition set_results (r : list (gmap string pyval)) (p : CSProfiler)
  : CSProfiler :=
  {| glitch_configs := glitch_configs p; num_positions := num_positions p;
     simpleserial_config := simpleserial_config p;
     valid_commands := valid_commands p; result_types := result_types p;
     _results := _results p; results := r;
     catched_errors := catched_errors p; world := world p |}.

Definition set_catched_errors (c : list (nat * string)) (p : CSProfiler)
  : CSProfiler :=
  {| glitch_configs := glitch_configs p; num_positions := num_positions p;
     simpleserial_config := simpleserial_config p;
     valid_commands := valid_commands p; result_types := result_types p;
     _results := _results p; results := results p;
     catched_errors := c; world := world p |}.

Definition set_registry (cfg : list SimpleSerialPacket) (cmds : list N)
    (p : CSProfiler) : CSProfiler :=
  {| glitch_configs := glitch_configs p; num_positions := num_positions p;
     simpleserial_config := cfg; valid_commands := cmds;
     result_types := result_types p; _results := _results p;
     results := results p; catched_errors := catched_errors p;
     world := world p |}.

(** Acting on the hardware from a method of the profiler. *)
Definition on_world {A} (m : M World A) : M CSProfiler A :=
  zoom world set_world m.

(** The default result types. *)
Definition default_result_types : list (string * string) :=
  [ ("nofaults", "No Fault"); ("faults", "FAULT");
    ("crashes", "Target unresponsive"); ("resets", "Target reset");
    ("soft_bricked", "Soft reset failed");
    ("hard_bricked", "Hard reset failed"); ("skipped", "Skipped") ].

Definition default_simpleserial_config : list SimpleSerialPacket :=
  [ mk_packet 115 "Start signal for target (acknowleged by target)" HDefault;
    mk_packet 101 "End signal from target (nofault)" nofaultPacketHandler;
    mk_packet 114 "Reset signal from target (reset)" resetPacketHandler;
    mk_packet 102 "Fault occured on target" faultPacketHandler ].

(** [CSProfiler.__init__], followed by the two assignments with which
    [run_campaign] starts a campaign ([catched_errors] emptied, [results]
    a deep copy of [_results]). *)
Definition new (glitch_configs : list GlitchConfig) (num_positions : nat)
    (simpleserial_config : option (list SimpleSerialPacket)) (w : World)
  : CSProfiler :=
  let config := default default_simpleserial_config
                  (match simpleserial_config with
                   | Some [] => None
                   | c => c
                   end) in
  let zeros :=
    list_to_map
      ((fun kv => ("num_" +:+ fst kv,
                   PList (replicate num_positions (IInt 0))))
         <$> default_result_types) in
  {| glitch_configs := glitch_configs; num_positions := num_positions;
     simpleserial_config := config;
     valid_commands := command <$> config;
     result_types := list_to_map default_result_types;
     _results := (fun _ => zeros) <$> glitch_configs;
     results := (fun _ => zeros) <$> glitch_configs;
     catched_errors := []; world := w |}.

(** [l.remove(x)] for an [x] that is in [l]: the first occurrence goes. *)
Fixpoint list_remove (x : N) (l : list N) : list N :=
  match l with
  | [] => []
  | y :: l' => if decide (y = x) then l' else y :: list_remove x l'
  end.

(** [addSimpleSerialCommand]; its first test, on the class of [packet],
    is settled by the type of the argument. *)
Definition addSimpleSerialCommand (packet : SimpleSerialPacket)
    (overwrite : bool) : M CSProfiler unit :=
  if decide (command packet = 0%N) then
    throw (Exn KeyError
      "SimpleSerial command cannot be 0 since zero is the termination character.")
  else
    let* p := get in
    let* _ :=
      if bool_decide (command packet ∈ valid_commands p) then
        if negb overwrite then
          throw (Exn KeyError
            ("addCommand: Command '" +:+ pretty (command packet)
             +:+ "' already exists in valid_commands."))
        else
          (* Remove old packet and command entry *)
          modify (fun p =>
            set_registry
              (filter (fun q => command q ≠ command packet)
                      (simpleserial_config p))
              (list_remove (command packet) (valid_commands p)) p)
      else ret tt in
    (* Append to configuration and update valid commands *)
    modify (fun p =>
      set_registry (simpleserial_config p ++ [packet])
                   (valid_commands p ++ [command packet]) p).

(** The loop of [handlePacket]: the first packet of the configuration
    whose command is [cmd], if the loop binds [matched_packet] at all. *)
Fixpoint find_packet (config : list SimpleSerialPacket) (cmd : N)
  : option SimpleSerialPacket :=
  match config with
  | [] => None
  | packet :: rest =>
      let command_byte := command packet in
      if decide (command_byte = cmd) then Some packet
      else find_packet rest cmd
  end.

(** [matched_packet.handler(self, matched_packet, data)]. *)
Definition call_handler (packet : SimpleSerialPacket)
    (data : option (list N)) : M CSProfiler handler_ret :=
  match handler packet with
  | HDefault =>
      throw (Exn RuntimeError
        ("SimpleSerialPacket " +:+ pretty (command packet)
         +:+ ": no handler defined"))
  | nofaultPacketHandler => ret (RStr "nofaults")
  | resetPacketHandler => ret (RStr "resets")
  | faultPacketHandler =>
      let* _ := on_world (reset_target 3) in ret (RStr "faults")
  | HExternal f => on_world (f data)
  end.

(** [handlePacket].  Nothing binds [matched_packet] before the loop, so
    the test [matched_packet is None] reads a name that is bound only if
    the loop found a packet; a packet found is never [None], and its
    handler is always callable. *)
Definition handlePacket (cmd : N) (data : option (list N))
  : M CSProfiler (string * option extradata) :=
  let* p := get in
  let matched_packet := find_packet (simpleserial_config p) cmd in
  let* matched_packet :=
    lift_result (read_local "matched_packet" matched_packet) in
  let* result := call_handler matched_packet data in
  let* '(result_category, extradata) :=
    match result with
    | RTuple2 c x => ret (c, x)
    | RStr c => ret (c, None)
    | ROther _ =>
        throw (Exn ValueError
          ("Handler of SimpleSerialPacket "
           +:+ pretty (command matched_packet)
           +:+ " must return either a string or a (string, extradata) tuple!"))
    end in
  let* p := get in
  if bool_decide (result_types p !! result_category = None) then
    throw (Exn ValueError
      ("PacketHandler of command: `" +:+ pretty (command matched_packet)
       +:+ "` returned invalid result_category: `" +:+ result_category
       +:+ "`"))
  else
    match extradata with
    | Some (EOther _ _) =>
        throw (Exn ValueError
          ("PacketHandler of command: `"
           +:+ pretty (command matched_packet)
           +:+ "` returned invalid extradata type (has to be dict, str, int, list)"))
    | _ => ret (result_category, extradata)
    end.

Definition crashHandler : M CSProfiler (string * option extradata) :=
  let* _ := on_world (reset_target 3) in
  ret ("crashes", None).

(** [test_execution], in its default form or as replaced through
    [overwrite_test_execution], runs one fault injection on the hardware;
    what comes of it is the answer of the environment. *)
Definition test_execution (position_index config_index : nat)
    (execution_index : Z) : M CSProfiler exec_tuple :=
  on_world (fun w =>
    let w' := log (TestExecution position_index config_index
                     execution_index) w in
    match exec w (trace w) position_index config_index execution_index with
    | Returns t => (Ok t, w')
    | Raises e => (Raise e, w')
    end).

(** *** [test_position] *)

(** The local variables of [test_position] that the loop over the
    executions changes, next to the profiler itself. *)
Record frame := mk_frame {
  self : CSProfiler;
  execution_index : Z;
  retry_count : nat
}.

Definition set_self (p : CSProfiler) (fr : frame) : frame :=
  {| self := p; execution_index := execution_index fr;
     retry_count := retry_count fr |}.

Definition set_execution_index (i : Z) (fr : frame) : frame :=
  {| self := self fr; execution_index := i;
     retry_count := retry_count fr |}.

Definition set_retry_count (n : nat) (fr : frame) : frame :=
  {| self := self fr; execution_index := execution_index fr;
     retry_count := n |}.

Definition on_self {A} (m : M CSProfiler A) : M frame A :=
  zoom self set_self m.

(** A statement that changes [config_results], the dictionary
    [self.results[config_index]], in place. *)
Definition on_config_results (config_index : nat)
    (f : gmap string pyval -> result (gmap string pyval)) : M frame unit :=
  fun fr =>
    match results (self fr) !! config_index with
    | None => (raise IndexError "list index out of range", fr)
    | Some config_results =>
        match f config_results with
        | Ok config_results' =>
            (Ok tt,
             set_self
               (set_results
                  (<[config_index := config_results']>
                     (results (self fr))) (self fr)) fr)
        | Raise e => (Raise e, fr)
        end
    end.

(** [config_results[key][position_index] += 1]. *)
Definition incr_counter (key : string) (position_index : nat)
    (config_results : gmap string pyval) : result (gmap string pyval) :=
  match config_results !! key with
  | None => raise KeyError key
  | Some (PInt _) => raise TypeError "'int' object is not subscriptable"
  | Some (PList l) =>
      match l !! position_index with
      | None => raise IndexError "list index out of range"
      | Some (IInt n) =>
          Ok (<[key := PList (<[position_index := IInt (n + 1)]> l)]>
                config_results)
      | Some (IGroup _ _) =>
          raise TypeError
            "unsupported operand type(s) for +=: 'dict' and 'int'"
      end
  end.

(** [config_results[key] += 1]. *)
Definition incr_entry (key : string)
    (config_results : gmap string pyval) : result (gmap string pyval) :=
  match config_results !! key with
  | None => raise KeyError key
  | Some (PInt n) => Ok (<[key := PInt (n + 1)]> config_results)
  | Some (PList _) => raise TypeError "'int' object is not iterable"
  end.

(** The statements under [if extradata:]. *)
Definition record_extradata (result_category : string)
    (position_index : nat) (x : extradata)
    (config_results : gmap string pyval) : result (gmap string pyval) :=
  (* Ensure the category exists *)
  let config_results :=
    match config_results !! result_category with
    | None => <[result_category := PList []]> config_results
    | Some _ => config_results
    end in
  match config_results !! result_category with
  | None => raise KeyError result_category
  | Some (PInt _) =>
      raise AttributeError "'int' object has no attribute 'append'"
  | Some (PList l) =>
      let fresh := l ++ [IGroup position_index [x]] in
      let l' :=
        match last l with
        | Some (IGroup p data_array) =>
            if decide (p = position_index)
            then take (length l - 1) l ++ [IGroup p (data_array ++ [x])]
            else fresh
        | _ => fresh
        end in
      Ok (<[result_category := PList l']> config_results)
  end.

(** The body of the main [try] block. *)
Definition attempt (position_index config_index : nat) : M frame unit :=
  let* fr := get in
  let* returned := on_self (test_execution position_index config_index
                              (execution_index fr)) in
  match returned with
  | Tuple2 _ _ =>
      throw (Exn ValueError
               "not enough values to unpack (expected 3, got 2)")
  | Tuple3 next_execution_index result_category extradata =>
      let* _ := modify (set_execution_index next_execution_index) in
      (* Print info string *)
      let* fr := get in
      let* _ :=
        match result_types (self fr) !! result_category with
        | None => throw (Exn KeyError result_category)
        | Some _ => ret tt
        end in
      (* Increment result_category in log *)
      let* _ := on_config_results config_index
                  (incr_counter ("num_" +:+ result_category)
                     position_index) in
      (* Add extradata to results *)
      match extradata with
      | Some x =>
          if extradata_truthy x then
            on_config_results config_index
              (record_extradata result_category position_index x)
          else ret tt
      | None => ret tt
      end
  end.

Inductive loop_ctl := Continue | Break.

Definition tier1_errors : list string :=
  [ "No response from shouter."; "Failed to clear ChipSHOUTER faults!" ].

Definition tier2_errors : list string :=
  [ "ChipWhisperer: reset_target timed out" ].

(** The [except Exception as e] clause of the main [try] block. *)
Definition on_error (position_index config_index : nat)
    (glitch_config : GlitchConfig) (e : exn) : M frame loop_ctl :=
  (* If e is a retry error, extract the underlying exception *)
  let e := match e with
           | RetryError _ (Some (c, a)) => Exn c a
           | _ => e
           end in
  (* Add error to catched_errors (for logging purposes) *)
  let* _ := on_self (modify (fun p =>
              set_catched_errors
                (catched_errors p ++ [(position_index, str_exn e)]) p)) in
  let* fr := get in
  (* Allow a maximum of 3 retries per execution *)
  if bool_decide (retry_count fr < 3) then
    let* _ := modify (set_retry_count (retry_count fr + 1)) in
    if bool_decide (str_exn e ∈ tier1_errors) then
      let* _ := on_self (on_world (hw CsPowerCycleUsb)) in
      let* _ := on_self (on_world (hw SerialFlush)) in
      let* _ := on_self (on_world (reset_target 3)) in
      let* _ := on_self (on_world (configure_chipshouter glitch_config)) in
      ret Continue
    else if bool_decide (str_exn e ∈ tier2_errors) then
      (* Try to power cycle and if not enough, reflash target *)
      let* _ := on_self (on_world (hw CsDisarm)) in
      let* _ := on_self (on_world power_cycle_target) in
      let* _ := on_self (on_world (hw SerialConnect)) in
      let* _ :=
        try_except
          ((* Try to reset target after power cycling *)
           let* _ := on_self (on_world (reset_target 3)) in
           let* _ := on_config_results config_index
                       (incr_entry "soft_bricked") in
           let* fr := get in
           modify (set_execution_index (execution_index fr + 1)))
          (fun _ =>
           (* If resetting still fails, reflash target and try again *)
           let* _ := on_self (on_world (hw (CwFlash
              "./target-firmware/build/emfi-profiler-CW308_STM32F4.hex"))) in
           let* _ := on_self (on_world (reset_target 3)) in
           let* _ := on_config_results config_index
                       (incr_entry "hard_bricked") in
           let* fr := get in
           modify (set_execution_index (execution_index fr + 1))) in
      ret Continue
    else (* unknown error *)
      throw e
  else
    (* Skip the rest of the executions of current glitch_config at
       current position *)
    let num_skipped :=
      (num_executions glitch_config - execution_index fr)%Z in
    let* _ := on_config_results config_index
                (fun config_results =>
                   Ok (<["num_skipped" := PInt num_skipped]>
                         config_results)) in
    ret Break.

(** One turn of the [while] loop. *)
Definition iteration (position_index config_index : nat)
    (glitch_config : GlitchConfig) : M frame loop_ctl :=
  try_except
    (let* _ := attempt position_index config_index in ret Continue)
    (on_error position_index config_index glitch_config).

(** [while execution_index < glitch_config.num_executions]. *)
Fixpoint while_executions (fuel : nat) (position_index config_index : nat)
    (glitch_config : GlitchConfig) : D frame unit :=
  fun fr =>
    if bool_decide (execution_index fr < num_executions glitch_config)%Z
    then
      match fuel with
      | O => None
      | S fuel' =>
          match iteration position_index config_index glitch_config fr with
          | (Ok Continue, fr') =>
              while_executions fuel' position_index config_index
                glitch_config fr'
          | (Ok Break, fr') => Some (Ok tt, fr')
          | (Raise e, fr') => Some (Raise e, fr')
          end
      end
    else Some (Ok tt, fr).

(** The length of the train of faults in milliseconds: the quotient by
    [1e6] is taken as an exact rational.  (The floating-point quotient of
    the source compares with an integer in the same way as long as the
    duration in nanoseconds is below [2^53] and [dead_timeout] below
    [2^33]: the rounding is monotone, it is exact at the multiples of
    [10^6], and one nanosecond is more than half the spacing of the
    floating-point numbers below [2^33].) *)
Definition faulting_duation_ms (glitch_config : GlitchConfig) : Q :=
  let pulse_spacing_ns := pulse_spacing glitch_config in
  let faulting_duration_ns :=
    ((pulse_width glitch_config + pulse_spacing_ns)
     * pulse_repeats glitch_config)%Z in
  Qdiv (inject_Z faulting_duration_ns) (inject_Z 1000000).

(** The body of [for config_index, glitch_config in enumerate(...)].  The
    text of the assertion error, which renders a floating-point number,
    is shortened. *)
Definition run_config (fuel : nat) (position_index config_index : nat)
    (glitch_config : GlitchConfig) : D CSProfiler unit :=
  (* Verify that sequence of faults is not longer than dead_timeout *)
  if Qlt_le_dec (faulting_duation_ms glitch_config)
       (inject_Z (dead_timeout glitch_config))
  then
    (let* _ := terminating
                 (on_world (configure_chipshouter glitch_config)) in
     let* p := terminating get in
     let* _ := terminating
                 (match results p !! config_index with
                  | Some _ => ret tt
                  | None =>
                      throw (Exn IndexError "list index out of range")
                  end) in
     let* _ := terminating (on_world (hw SerialFlush)) in
     fun p =>
       match while_executions fuel position_index config_index
               glitch_config
               {| self := p; execution_index := 0; retry_count := 0 |} with
       | Some (r, fr) => Some (r, self fr)
       | None => None
       end)%loop
  else
    terminating
      (throw (Exn AssertionError
                "Faulting for longer than dead_timeout")).

Fixpoint for_configs (fuel : nat) (position_index config_index : nat)
    (configs : list GlitchConfig) : D CSProfiler unit :=
  match configs with
  | [] => retD tt
  | glitch_config :: rest =>
      (let* _ := run_config fuel position_index config_index
                   glitch_config in
       for_configs fuel position_index (S config_index) rest)%loop
  end.

Definition test_position (fuel : nat) (position_index : nat)
  : D CSProfiler unit :=
  (let* _ := terminating (on_world (reset_target 3)) in
   let* p := terminating get in
   for_configs fuel position_index 0 (glitch_configs p))%loop.

End CSProfiler.

(** ** A transport to run the protocol on *)

(** Modelled from the spec: the byte transport under [SerialChannel]
    (section 4.2: [read_bytes(n, timeout)], [write(bytes, timeout)],
    [in_waiting()], [flush()]), which the driver class missing from the
    sources implements.  A wire holds the bytes that arrive within the
    timeouts ([rx]) and the writes made so far ([tx]); reading takes bytes
    off the front of [rx], peeking leaves them, and nothing raises. *)
Record Wire := mk_Wire { rx : list N; tx : list (list N) }.

Global Instance wire_driver : SerialDriver Wire := {|
  ser_read_bytes n _ w :=
    (Ok (take (Z.to_nat n) (rx w)),
     {| rx := drop (Z.to_nat n) (rx w); tx := tx w |});
  ser_peek_bytes n _ w := (Ok (take (Z.to_nat n) (rx w)), w);
  ser_write b _ w := (Ok tt, {| rx := rx w; tx := tx w ++ [b] |});
  ser_inWaiting w := (Ok (Z.of_nat (length (rx w))), w);
  ser_flush w := (Ok tt, {| rx := []; tx := tx w |})
|}.

(** ** Predicates and sample data *)

(** A frame on the wire: command [f], payload [0x11], its CRC, stuffed. *)
Definition sample_frame : list N := [102; 3; 17; 228; 0]%N.

(** The two lists of the registry name the same commands. *)
Definition registry_ok (p : CSProfiler.CSProfiler) : Prop :=
  forall c : N,
    c ∈ CSProfiler.valid_commands p <->
    c ∈ CSProfiler.command <$> CSProfiler.simpleserial_config p.

(** The encoder never meets a zero byte while its block is full, that is
    while [code] is [0xFF]; [code] is followed as [_cobs_stuff_data] updates
    it. *)
Fixpoint zero_never_closes_full_block (code : N) (buf : list N) : bool :=
  match buf with
  | [] => true
  | b :: rest =>
      if (b =? 0)%N then
        negb (code =? 0xFF)%N && zero_never_closes_full_block 1 rest
      else
        zero_never_closes_full_block
          (if (code =? 0xFF)%N then 2 else code + 1)%N rest
  end.

Section EncoderInvariant.

Import Codec.

(** The state of the encoder after it has read [pre]: the blocks closed so
    far ([enc]) decode to [dec], and the open block holds [cur]. *)
Inductive stuffed (pre : list N) (st : stuff_state) : Prop :=
| stuffed_intro (enc dec cur : list N) :
    out st = enc ++ 0%N :: cur ->
    code_index st = length enc ->
    code st = (N.of_nat (length cur) + 1)%N ->
    length cur <= 254 ->
    pre = dec ++ cur ->
    (forall rest acc, rest <> [] ->
       unstuff_loop (enc ++ rest) 0 0 acc = unstuff_loop rest 0 0 (acc ++ dec)) ->
    stuffed pre st.

End EncoderInvariant.

(** What an exception in the handler of [test_position] leaves as it was:
    the execution index and the results. *)
Section HandlerFailure.

Import CSProfiler.

Definition same_counts (fr fr' : frame) : Prop :=
  execution_index fr' = execution_index fr /\
  results (self fr') = results (self fr).

Definition fails_with_same_counts {A} (m : M frame A) (fr : frame) : Prop :=
  exists e fr', m fr = (Raise e, fr') /\ same_counts fr fr'.

End HandlerFailure.

Module Samples.

Import CSProfiler.

(** A configuration in the manner of [test_profile_target.py]: pulses of
    40 ns spaced by 50 ns, twice, five executions, a dead timeout of
    100 ms. *)
Definition sample_config : GlitchConfig :=
  {| probe := "4mm CW"; voltage := 0; pulse_width := 40; pulse_spacing := 50;
     pulse_repeats := 2; pulse_offset := 3400; num_executions := 5;
     dead_timeout := 100; ack_timeout := 100 |}.

(** A train of faults of 200 ms against the same dead timeout. *)
Definition long_train_config : GlitchConfig :=
  {| probe := "4mm CW"; voltage := 0; pulse_width := 40000000;
     pulse_spacing := 60000000; pulse_repeats := 2; pulse_offset := 3400;
     num_executions := 5; dead_timeout := 100; ack_timeout := 100 |}.

Definition no_faults : list hw_action -> hw_action -> option exn :=
  fun _ _ => None.

(** Hardware that answers every request, and a target that never faults. *)
Definition quiet_world : World :=
  {| trace := []; faults := no_faults; reset_seen := fun _ => true;
     exec := fun _ _ _ i => Returns (Tuple3 (i + 1) "nofaults" None) |}.

(** At position 0 the first execution is skipped and the others pass; at
    position 1 the ChipSHOUTER never answers. *)
Definition silent_shouter_world : World :=
  {| trace := []; faults := no_faults; reset_seen := fun _ => true;
     exec := fun _ position_index _ i =>
       if decide (position_index = 1%nat) then
         Raises (Exn Exception "No response from shouter.")
       else if decide (i = 0%Z) then Returns (Tuple3 (i + 1) "skipped" None)
       else Returns (Tuple3 (i + 1) "nofaults" None) |}.

(** The first execution fails with the error text of the second tier; the
    target then answers every reset. *)
Definition reset_timeout_world : World :=
  {| trace := []; faults := no_faults; reset_seen := fun _ => true;
     exec := fun _ _ _ i =>
       if decide (i = 0%Z) then
         Raises (Exn Exception "ChipWhisperer: reset_target timed out")
       else Returns (Tuple3 (i + 1) "nofaults" None) |}.

(** A target that never answers a reset: the execution fails with the
    error that [reset_target] raises (through [crashHandler]). *)
Definition dead_target_world : World :=
  {| trace := []; faults := no_faults; reset_seen := fun _ => false;
     exec := fun _ _ _ _ =>
       Raises (Exn ResetTimeoutError "Failed to reset target after 3 tries!") |}.

(** The state in which [test_position] is left, whatever it returned. *)
Definition state_after (r : option (result unit * CSProfiler))
    (otherwise : CSProfiler) : CSProfiler :=
  match r with
  | Some (_, p) => p
  | None => otherwise
  end.

(** The counters of one category in the results of one configuration. *)
Definition counters (p : CSProfiler) (config_index : nat) (key : string)
  : option pyval :=
  results p !! config_index ≫= fun config_results => config_results !! key.

End Samples.

(** ** The rest of the codec, of the protocol and of the profiler *)

(** What the round trip of the codec returns: the buffer without the zero
    bytes that the encoder meets while its block is full; [code] is
    followed as [_cobs_stuff_data] updates it. *)
Fixpoint survivors (code : N) (buf : list N) : list N :=
  match buf with
  | [] => []
  | b :: rest =>
      if (b =? 0)%N then
        if (code =? 0xFF)%N then survivors 1 rest
        else b :: survivors 1 rest
      else b :: survivors (if (code =? 0xFF)%N then 2 else code + 1)%N rest
  end.

Section EncoderShape.

Import Codec.

(** The shape of [out] while the encoder runs: the closed blocks, the
    placeholder of the open block, the bytes of the open block; the
    placeholder is the only zero. *)
Definition stuff_shape (st : stuff_state) : Prop :=
  exists enc cur,
    out st = enc ++ 0%N :: cur /\ code_index st = length enc /\
    Forall (fun x => x <> 0%N) enc /\ Forall (fun x => x <> 0%N) cur /\
    code st <> 0%N.

(** The length of [out] after [processed] bytes: one code byte for the
    open block, and one more for each block that was closed. *)
Definition stuff_size (processed : nat) (st : stuff_state) : Prop :=
  processed + 1 <= length (out st) /\
  254 * (length (out st) - processed - 1) + (N.to_nat (code st) - 1)
    <= processed /\
  (1 <= code st)%N /\
  code_index st < length (out st).

End EncoderShape.

(** The 256 values of a byte. *)
Definition all_bytes : list N := N.of_nat <$> seq 0 256.

(** *** More of class [TargetSerial] *)

Module TargetSerialMore.

Import Codec TargetSerial.
Local Open Scope py_scope.

Definition _verify_crc (buf : list N) : bool :=
  if bool_decide (length buf < 2) then
    (* Not enough data to have CRC *)
    false
  else
    let data := take (length buf - 1) buf in
    match last buf with
    | Some received_crc => (_calc_crc data =? received_crc)%N
    | None => false
    end.

(** The packet that [send_packet] assembles in [pkt] for a command byte
    and a non-empty data. *)
Definition assembled_packet (cmd : N) (data : list N) : list N :=
  let crc := _calc_crc data in
  let block := data ++ [crc] in
  let encoded := _cobs_stuff_data block 0 in
  [cmd] ++ encoded ++ [0%N].

(** What a caller may pass as the command of [wait_ack]: [None], or a
    command as for [send_packet]; of an object of another type the truth
    value matters too. *)
Inductive ack_arg :=
| AckNone
| AckInt (z : Z)
| AckStr (s : string)
| AckOther (type_name : string) (truth : bool).

(** [bool(command)]. *)
Definition ack_truthy (command : ack_arg) : bool :=
  match command with
  | AckNone => false
  | AckInt z => negb (z =? 0)%Z
  | AckStr s => negb (bool_decide (s = ""))
  | AckOther _ t => t
  end.

Definition ack_cmd (command : ack_arg) : cmd_arg :=
  match command with
  | AckInt z => CmdInt z
  | AckStr s => CmdStr s
  | AckOther ty _ => CmdOther ty
  | AckNone => CmdOther "<class 'NoneType'>"
  end.

(** Two of the codes of [SimpleSerial_Err]. *)
Definition OK : Z := 0.
Definition ERR_CMD : Z := 1.

Section Methods.
Context {D : Type} `{!SerialDriver D}.

(** [send_ack]: the call [self.send_packet(cmd, timeout)] passes the
    timeout in the place of the data. *)
Definition send_ack (cmd : cmd_arg) (timeout : Z) : M D unit :=
  send_packet cmd (Some (DInt timeout)) 0.

Definition flush : M D unit := ser_flush.

(** [flush_on_error]; [flush_on_err] is the attribute [_flush_on_err]
    that the constructor sets. *)
Definition flush_on_error (flush_on_err : bool) : M D unit :=
  if flush_on_err then flush else ret tt.

(** [wait_for_sequence].  What [read] returns is what the driver returns,
    which is [bytes]: the branch [x is None] is not one that a driver of
    this interface leads to. *)
Definition wait_for_sequence (flush_on_err : bool) (sequence : data_arg)
    (timeout : Z) : M D Z :=
  let* sequence := lift_result (type_convert_data sequence) in
  let* x := read (Z.of_nat (length sequence)) timeout in
  if bool_decide (x = sequence) then ret OK
  else
    let* _ := flush_on_error flush_on_err in
    ret ERR_CMD.

Definition wait_ack (flush_on_err : bool) (command : ack_arg)
    (timeout : Z) : M D Z :=
  let* ack_sequence :=
    if ack_truthy command then
      let* command := lift_result (type_convert_cmd (ack_cmd command)) in
      ret [command; 0%N]
    else ret [0%N] in
  wait_for_sequence flush_on_err (DBytes ack_sequence) timeout.

End Methods.

End TargetSerialMore.

(** *** More of class [CSProfiler] *)

Module CSProfilerMore.

Import TargetSerial CSProfiler.
Local Open Scope py_scope.

Definition set_result_types (t : gmap string string)
    (r : list (gmap string pyval)) (p : CSProfiler) : CSProfiler :=
  {| glitch_configs := glitch_configs p; num_positions := num_positions p;
     simpleserial_config := simpleserial_config p;
     valid_commands := valid_commands p; result_types := t;
     _results := r; results := results p;
     catched_errors := catched_errors p; world := world p |}.

(** [[0] * self.num_positions]. *)
Definition zero_counters (p : CSProfiler) : pyval :=
  PList (replicate (num_positions p) (IInt 0)).

(** [addResultType]; its first test, on the types of [key] and [label], is
    settled by the types of the arguments. *)
Definition addResultType (key label : string) : M CSProfiler unit :=
  let* p := get in
  if bool_decide (is_Some (result_types p !! key)) then
    throw (Exn KeyError
      ("addResultType: Result type '" +:+ key
       +:+ "' already exists in result_types."))
  else
    (* Add to result_types mapping, then the counters to existing results *)
    modify (fun p =>
      set_result_types (<[key := label]> (result_types p))
        ((fun res => <["num_" +:+ key := zero_counters p]> res)
           <$> _results p) p).

Section Serial.
Context {D : Type} `{!SerialDriver D}.

(** [CSProfiler.send_packet]: the state acted upon is that of
    [self.target_serial]; of the profiler only [valid_commands] is read. *)
Definition send_packet (p : CSProfiler) (cmd : cmd_arg)
    (data : option data_arg) : M D unit :=
  let* cmd := lift_result (type_convert_cmd cmd) in
  if negb (bool_decide (cmd ∈ valid_commands p)) then
    throw (Exn ValueError
      ("sendPacket: Command: `" +:+ pretty cmd
       +:+ "` is not a valid command, add it using addSimpleSerialCommand()"))
  else
    TargetSerial.send_packet (CmdInt (Z.of_N cmd)) data 0.

End Serial.

(** The files of the directory [results/]: a map from paths to what the
    files hold.  What [store_results] writes, the JSON text of the log, is
    a value of a type [C] that the model leaves open. *)
Section Files.
Context {C : Type}.

Definition results_path : string := "results/".

(** The two paths that the search tests for a counter. *)
Definition complete_file (counter : nat) : string :=
  results_path +:+ "results_" +:+ pretty counter +:+ ".json".

Definition partial_file (counter : nat) : string :=
  results_path +:+ "results_" +:+ pretty counter +:+ "_partial.json".

(** [os.path.exists]. *)
Definition path_exists (files : gmap string C) (path : string) : bool :=
  bool_decide (is_Some (files !! path)).

(** The loop [while os.path.exists(...) or os.path.exists(...):
    counter += 1]; [fuel] bounds its turns. *)
Fixpoint find_counter (fuel : nat) (files : gmap string C) (counter : nat)
  : option nat :=
  if path_exists files (complete_file counter)
     || path_exists files (partial_file counter)
  then
    match fuel with
    | O => None
    | S fuel' => find_counter fuel' files (S counter)
    end
  else Some counter.

(** The path that is opened for writing. *)
Definition opened_file (counter : nat) (partial : bool) : string :=
  results_path +:+ "results_" +:+ pretty counter
  +:+ (if partial then "_partial" else "") +:+ ".json".

(** [store_results], with the text to write in [log_json]: the search for
    a name that is free, and the file written under it. *)
Definition store_results (fuel : nat) (log_json : C) (partial : bool)
    (files : gmap string C) : option (gmap string C) :=
  (* Find a unique filename *)
  match find_counter fuel files 0 with
  | None => None
  | Some counter =>
      (* Save log_json as file *)
      Some (<[opened_file counter partial := log_json]> files)
  end.

End Files.

(** The objects that a log is made of: a [dict] (its items in order; a
    key is any object), a [list], a [tuple], a [bytes] or [bytearray], a
    [str], an [int], [None], and an object of any other type (a set, a
    float, an instance of a class) with the objects that it holds. *)
Local Unset Elimination Schemes.
Inductive pyobj :=
| ODict (items : list (pyobj * pyobj))
| OList (l : list pyobj)
| OTuple (l : list pyobj)
| OBytes (b : list N)
| OStr (s : string)
| OInt (z : Z)
| ONone
| OOther (type_name : string) (held : list pyobj).
Local Set Elimination Schemes.




(** Where the conversion looks: the object itself, the values of a [dict]
    and the items of a [list], at any depth.  [converted obj]: none of
    these is a [bytes] or a [tuple]. *)
Fixpoint converted (obj : pyobj) : bool :=
  match obj with
  | ODict items =>
      forallb (fun kv => match kv with (_, v) => converted v end) items
  | OList l => forallb converted l
  | OTuple _ => false
  | OBytes _ => false
  | _ => true
  end.


End CSProfilerMore.

(** Every result type has its list of zeroed counters, one per position,
    in every dictionary of [_results]. *)
Definition counters_ready (p : CSProfiler.CSProfiler) : Prop :=
  forall key res,
    is_Some (CSProfiler.result_types p !! key) ->
    res ∈ CSProfiler._results p ->
    res !! ("num_" +:+ key) = Some (CSProfilerMore.zero_counters p).

(** What the error handler and the statements around it leave alone. *)
Section HandlerSteps.

Import CSProfiler.

(** [extends w w']: the hardware has been asked for more, and nothing
    else: the trace has grown, the environment is the same. *)
Definition extends (w w' : World) : Prop :=
  exists tr,
    w' = mk_World (trace w ++ tr) (faults w) (reset_seen w) (exec w).

(** [quiet_step fr fr']: between the two states the hardware was used, and
    the results and the execution index may have moved on; the log of
    errors, the retry counter and the result types are the same, and the
    execution index is not smaller. *)
Definition quiet_step (fr fr' : frame) : Prop :=
  extends (world (self fr)) (world (self fr')) /\
  catched_errors (self fr') = catched_errors (self fr) /\
  retry_count fr' = retry_count fr /\
  result_types (self fr') = result_types (self fr) /\
  length (results (self fr')) = length (results (self fr)) /\
  (execution_index fr <= execution_index fr')%Z.

(** A computation all of whose runs are quiet steps. *)
Definition quiet {A} (m : M frame A) : Prop :=
  forall fr r fr', m fr = (r, fr') -> quiet_step fr fr'.

(** The exception that the handler works with: the last attempt of a
    [RetryError] that has one, else the exception itself. *)
Definition underlying (e : exn) : exn :=
  match e with
  | RetryError _ (Some (c, a)) => Exn c a
  | _ => e
  end.


(** The executions [first], [first + 1], ... ([count] of them) of one
    configuration at one position, as the hardware sees them. *)
Definition executions (position_index config_index : nat) (first : Z)
    (count : nat) : list hw_action :=
  (fun j => TestExecution position_index config_index (first + Z.of_nat j))
    <$> seq 0 count.

(** The extra data that a list of groups holds, one after the other, each
    with the position at which it was recorded. *)
Definition entries (l : list pyitem) : list (nat * extradata) :=
  l ≫= fun item =>
    match item with
    | IGroup p data => (fun x => (p, x)) <$> data
    | IInt _ => []
    end.

(** The list under a key of a dictionary of results; empty when the key
    is not bound. *)
Definition items (config_results : gmap string pyval) (key : string)
  : list pyitem :=
  match config_results !! key with
  | Some (PList l) => l
  | _ => []
  end.

End HandlerSteps.

(** * Properties of the codec *)

Section CodecFacts.

Import Codec.

(** The equation of the loop of [_cobs_unstuff_data]. *)
Lemma unstuff_loop_unfold (buf : list N) (fb : N) (index : nat)
    (acc : list N) :
  unstuff_loop buf fb index acc =
    match buf !! index with
    | None => Ok acc
    | Some code =>
        if decide (code = 0%N) then
          raise ValueError "Invalid COBS: code byte cannot be 0"
        else if decide (length buf < S index + N.to_nat code - 1) then
          raise ValueError "Invalid COBS: block extends past end of buffer"
        else
          let end_ := S index + N.to_nat code - 1 in
          let out1 := acc ++ slice buf (S index) end_ in
          unstuff_loop buf fb end_
            (if (code <? 0xFF)%N && bool_decide (end_ < length buf)
             then out1 ++ [fb] else out1)
    end.
Proof.
  funelim (unstuff_loop buf fb index acc); try clear Heqcall.
  - by rewrite e.
  - rewrite Hcode. by rewrite decide_True.
  - rewrite Hcode. rewrite decide_False by done. by rewrite decide_True.
  - clear H. rewrite Hcode. rewrite decide_False by done. by rewrite decide_False.
Qed.

(** A slice taken past a prefix is a slice of what follows the prefix. *)
Lemma slice_app_shift (pfx rest : list N) (i j : nat) :
  slice (pfx ++ rest) (length pfx + i) (length pfx + j) = slice rest i j.
Proof.
  unfold slice. rewrite drop_app_add'; [|done].
  f_equal. lia.
Qed.

(** The loop does not look behind its index. *)
Lemma unstuff_loop_shift (pfx rest : list N) (fb : N) (i : nat)
    (acc : list N) :
  unstuff_loop (pfx ++ rest) fb (length pfx + i) acc =
    unstuff_loop rest fb i acc.
Proof.
  remember (length rest - i) as n eqn:Hn.
  revert i acc Hn. induction n as [n IH] using lt_wf_ind. intros i acc Hn.
  rewrite (unstuff_loop_unfold (pfx ++ rest)), (unstuff_loop_unfold rest).
  rewrite lookup_app_r by lia.
  replace (length pfx + i - length pfx) with i by lia.
  destruct (rest !! i) as [code|] eqn:Hcode; [|done].
  apply lookup_lt_Some in Hcode as Hlt.
  destruct (decide (code = 0%N)); [done|].
  rewrite length_app.
  destruct (decide (length rest < S i + N.to_nat code - 1)) as [Hpast|Hin].
  - rewrite decide_True by lia. done.
  - rewrite decide_False by lia. cbv zeta.
    replace (S (length pfx + i) + N.to_nat code - 1)
      with (length pfx + (S i + N.to_nat code - 1)) by lia.
    replace (S (length pfx + i)) with (length pfx + S i) by lia.
    rewrite slice_app_shift.
    rewrite (bool_decide_ext (length pfx + (S i + N.to_nat code - 1)
                              < length pfx + length rest)
               (S i + N.to_nat code - 1 < length rest)) by lia.
    eapply IH; [|reflexivity]. lia.
Qed.

Lemma unstuff_loop_nil (fb : N) (acc : list N) :
  unstuff_loop [] fb 0 acc = Ok acc.
Proof. by rewrite unstuff_loop_unfold. Qed.

(** [out[code_index] = code] is always a legal assignment: the index is
    inside [out] and the code is a byte. *)
Lemma stuff_step_in_range (st : stuff_state) (b : N) :
  code_index st < length (out st) /\ (1 <= code st <= 255)%N ->
  code_index (stuff_step 0 st b) < length (out (stuff_step 0 st b)) /\
  (1 <= code (stuff_step 0 st b) <= 255)%N.
Proof.
  intros [Hidx Hcode]. unfold stuff_step.
  destruct (N.eqb_spec b 0) as [-> | Hb]; simpl orb; simpl negb; cbv iota.
  - simpl. rewrite length_app. simpl. lia.
  - destruct (N.eqb_spec (code st) 255) as [Hfull | Hroom]; cbv iota; simpl;
      rewrite !length_app; simpl; lia.
Qed.

Lemma stuff_fold_in_range (buf : list N) (st : stuff_state) :
  code_index st < length (out st) /\ (1 <= code st <= 255)%N ->
  code_index (fold_left (stuff_step 0) buf st)
    < length (out (fold_left (stuff_step 0) buf st)) /\
  (1 <= code (fold_left (stuff_step 0) buf st) <= 255)%N.
Proof.
  revert st. induction buf as [|b buf IH]; intros st Hst; [done|].
  simpl. by apply IH, stuff_step_in_range.
Qed.

(** One turn of the loop on a block with its code byte: the block is
    copied, and a frame byte follows it unless the block is full (code
    [0xFF]) or the buffer ends there. *)
Lemma unstuff_loop_block (blk rest : list N) (fb : N) (acc : list N) :
  length blk <= 254 ->
  unstuff_loop (N.of_nat (length blk) + 1 :: blk ++ rest)%N fb 0 acc =
    unstuff_loop rest fb 0
      (acc ++ blk ++
       (if bool_decide (length blk < 254) && negb (bool_decide (rest = []))
        then [fb] else [])).
Proof.
  intros Hlen. rewrite unstuff_loop_unfold. simpl lookup. cbv beta iota.
  rewrite decide_False by lia.
  assert (He : 1 + N.to_nat (N.of_nat (length blk) + 1) - 1 = S (length blk)) by lia.
  rewrite He. simpl length. rewrite length_app.
  rewrite decide_False by lia. cbv zeta.
  assert (Hs : slice (N.of_nat (length blk) + 1 :: blk ++ rest)%N 1 (S (length blk)) = blk).
  { unfold slice. replace (S (length blk) - 1) with (length blk) by lia.
    change (drop 1 ((N.of_nat (length blk) + 1)%N :: blk ++ rest))
      with (blk ++ rest).
    by rewrite take_app_length. }
  rewrite Hs.
  change (N.of_nat (length blk) + 1 :: blk ++ rest)%N
    with ((N.of_nat (length blk) + 1 :: blk)%N ++ rest).
  replace (S (length blk)) with (length ((N.of_nat (length blk) + 1)%N :: blk) + 0)
    by (simpl; lia).
  rewrite unstuff_loop_shift. f_equal.
  simpl length.
  assert (Hc : (N.of_nat (length blk) + 1 <? 255)%N = bool_decide (length blk < 254)).
  { destruct (N.ltb_spec (N.of_nat (length blk) + 1) 255);
      [rewrite bool_decide_eq_true_2 | rewrite bool_decide_eq_false_2]; lia. }
  rewrite Hc.
  assert (Hr : bool_decide (S (length blk) + 0 < S (length blk + length rest))
               = negb (bool_decide (rest = []))).
  { destruct rest; simpl.
    - rewrite bool_decide_eq_false_2 by lia. done.
    - rewrite bool_decide_eq_true_2 by lia. done. }
  rewrite Hr.
  destruct (_ && _); by rewrite <- ?app_assoc, ?app_nil_r.
Qed.

Lemma stuffed_init : stuffed [] stuff_init.
Proof.
  apply (stuffed_intro [] stuff_init [] [] []); try done.
  - simpl. lia.
  - intros rest acc _. by rewrite app_nil_r.
Qed.

(** [out[code_index] = code]: the placeholder of the open block is
    overwritten. *)
Lemma close_block (enc cur : list N) (c : N) :
  <[length enc := c]> (enc ++ 0%N :: cur) = enc ++ c :: cur.
Proof.
  rewrite insert_app_r_alt by lia.
  by replace (length enc - length enc) with 0 by lia.
Qed.

(** One byte more, as long as it is not a zero met with a full block. *)
Lemma stuffed_step (pre : list N) (st : stuff_state) (b : N) :
  stuffed pre st ->
  ((b =? 0)%N && (code st =? 0xFF)%N = false) ->
  stuffed (pre ++ [b]) (stuff_step 0 st b).
Proof.
  intros [enc dec cur Hout Hidx Hcode Hlen Hpre Hdec] Hsafe.
  unfold stuff_step.
  destruct (N.eqb_spec b 0) as [-> | Hb]; simpl orb; simpl negb; cbv iota.
  - (* a zero closes the block, which is not full *)
    simpl in Hsafe. apply N.eqb_neq in Hsafe.
    rewrite Hout, Hidx, close_block.
    apply (stuffed_intro _ _ (enc ++ code st :: cur) (dec ++ cur ++ [0%N]) []);
      simpl; try done.
    + lia.
    + rewrite Hpre. by rewrite app_nil_r, <- app_assoc.
    + intros rest acc Hrest. rewrite <- app_assoc. simpl.
      rewrite Hdec by done. rewrite Hcode.
      rewrite unstuff_loop_block by done.
      rewrite bool_decide_eq_true_2 by lia.
      rewrite bool_decide_eq_false_2 by done. simpl.
      by rewrite <- !app_assoc.
  - destruct (N.eqb_spec (code st) 255) as [Hfull | Hroom]; cbv iota.
    + (* a full block is closed before the byte opens the next one *)
      rewrite Hout, Hidx, close_block. simpl.
      apply (stuffed_intro _ _ (enc ++ code st :: cur) (dec ++ cur) [b]);
        simpl; try done.
      * by rewrite <- app_assoc.
      * lia.
      * by rewrite Hpre.
      * intros rest acc Hrest. rewrite <- app_assoc. simpl.
        rewrite Hdec by done. rewrite Hcode.
        rewrite unstuff_loop_block by done.
        rewrite bool_decide_eq_false_2 by lia. simpl.
        by rewrite app_nil_r, <- app_assoc.
    + (* the byte joins the open block *)
      simpl.
      apply (stuffed_intro _ _ enc dec (cur ++ [b])); try done.
      * rewrite Hout. by rewrite <- app_assoc.
      * rewrite Hcode, length_app. simpl. lia.
      * rewrite length_app. simpl. lia.
      * rewrite Hpre. by rewrite <- app_assoc.
Qed.

Lemma stuffed_fold (buf pre : list N) (st : stuff_state) :
  stuffed pre st ->
  zero_never_closes_full_block (code st) buf = true ->
  stuffed (pre ++ buf) (fold_left (stuff_step 0) buf st).
Proof.
  revert pre st. induction buf as [|b buf IH]; intros pre st Hst Hsafe.
  - by rewrite app_nil_r.
  - simpl in Hsafe. simpl fold_left.
    replace (pre ++ b :: buf) with ((pre ++ [b]) ++ buf)
      by (by rewrite <- app_assoc).
    apply IH.
    + apply stuffed_step; [done|].
      destruct (b =? 0)%N; [|done].
      apply andb_true_iff in Hsafe as [Hc _].
      by apply negb_true_iff in Hc.
    + unfold stuff_step.
      destruct (N.eqb_spec b 0) as [-> | Hb]; simpl orb; simpl negb; cbv iota.
      * apply andb_true_iff in Hsafe as [_ Hrest]. exact Hrest.
      * destruct (code st =? 255)%N; exact Hsafe.
Qed.

Lemma _cobs_unstuff_data_loop (buf : list N) (fb : N) :
  _cobs_unstuff_data buf fb = unstuff_loop buf fb 0 [].
Proof. destruct buf; [by rewrite unstuff_loop_nil | done]. Qed.

(** The round trip holds for every buffer in which no zero byte comes
    right after a block of 254 bytes has filled up. *)
Theorem cobs_roundtrip_safe (buf : list N) :
  zero_never_closes_full_block 1 buf = true ->
  _cobs_unstuff_data (_cobs_stuff_data buf 0) 0 = Ok buf.
Proof.
  intros Hsafe. destruct buf as [|b0 buf0] eqn:Hbuf; [done|].
  rewrite <- Hbuf in *. 
  destruct (stuffed_fold buf [] stuff_init stuffed_init Hsafe)
    as [enc dec cur Hout Hidx Hcode Hlen Hpre Hdec].
  assert (Hs : _cobs_stuff_data buf 0 = enc ++ code (fold_left (stuff_step 0) buf stuff_init) :: cur).
  { unfold _cobs_stuff_data. rewrite Hbuf. rewrite <- Hbuf.
    cbv zeta. rewrite Hout, Hidx. apply close_block. }
  rewrite Hs, _cobs_unstuff_data_loop.
  rewrite Hdec by done.
  rewrite Hcode.
  replace cur with (cur ++ []) at 2 by apply app_nil_r.
  rewrite unstuff_loop_block by done.
  rewrite unstuff_loop_nil. simpl in Hpre. rewrite Hpre.
  rewrite (bool_decide_eq_true_2 (@nil N = [])) by done.
  simpl negb. rewrite andb_false_r. simpl. by rewrite app_nil_r.
Qed.

Lemma short_buffer_safe (buf : list N) (c : N) :
  N.to_nat c + length buf <= 255 ->
  zero_never_closes_full_block c buf = true.
Proof.
  revert c. induction buf as [|b buf IH]; intros c Hlen; [done|].
  simpl in *. 
  assert (Hc : (c =? 255)%N = false) by (apply N.eqb_neq; lia).
  rewrite Hc. simpl.
  destruct (b =? 0)%N; apply IH; lia.
Qed.

(** In particular it holds for every buffer of at most 254 bytes: the
    empty one, those of one byte, those with zeros. *)
Corollary cobs_roundtrip_short (buf : list N) :
  length buf <= 254 ->
  _cobs_unstuff_data (_cobs_stuff_data buf 0) 0 = Ok buf.
Proof.
  intros Hlen. apply cobs_roundtrip_safe, short_buffer_safe. simpl.
  change (N.to_nat 1) with 1. lia.
Qed.

(** C1: the round trip fails on 254 non-zero bytes followed by a zero.
    The block of 254 bytes is closed by the zero itself, with code [0xFF],
    and decoding a block of code [0xFF] puts no zero back: the last byte is
    lost. *)
Theorem cobs_roundtrip_fails_after_full_block :
  let b := repeat 1%N 254 ++ [0%N] in
  _cobs_stuff_data b 0 = [255%N] ++ repeat 1%N 254 ++ [1%N] /\
  _cobs_unstuff_data (_cobs_stuff_data b 0) 0 = Ok (repeat 1%N 254) /\
  _cobs_unstuff_data (_cobs_stuff_data b 0) 0 <> Ok b.
Proof.
  cbv zeta.
  assert (Hs : _cobs_stuff_data (repeat 1%N 254 ++ [0%N]) 0
               = [255%N] ++ repeat 1%N 254 ++ [1%N]) by (vm_compute; reflexivity).
  assert (Hu : _cobs_unstuff_data ([255%N] ++ repeat 1%N 254 ++ [1%N]) 0
               = Ok (repeat 1%N 254)) by (vm_compute; reflexivity).
  rewrite Hs, Hu. repeat split.
  intros Heq. apply (f_equal (fun r => match r with
                                       | Ok l => length l
                                       | Raise _ => 0%nat
                                       end)) in Heq.
  vm_compute in Heq. discriminate Heq.
Qed.

End CodecFacts.

(** * Properties of the packet protocol *)

Section TargetSerialFacts.

Context {D : Type} `{!SerialDriver D}.

Import Codec TargetSerial.

Lemma type_convert_cmd_in_range (z : Z) :
  (0 <= z <= 255)%Z -> type_convert_cmd (CmdInt z) = Ok (Z.to_N z).
Proof.
  intros [Hlo Hhi]. unfold type_convert_cmd.
  apply Z.leb_le in Hlo, Hhi. by rewrite Hlo, Hhi.
Qed.

Lemma type_convert_cmd_out_of_range (z : Z) :
  (z < 0 \/ 255 < z)%Z ->
  type_convert_cmd (CmdInt z) =
    raise ValueError ("Command `" +:+ str_Z z +:+ "` out of byte range (0-255)").
Proof.
  intros Hz. unfold type_convert_cmd.
  destruct (0 <=? z)%Z eqn:Hlo, (z <=? 255)%Z eqn:Hhi; simpl; try done.
  apply Z.leb_le in Hlo, Hhi. lia.
Qed.

(** A packet without data: the command and the terminator go to the
    driver. *)
Lemma send_packet_signal (z timeout : Z) (data : option data_arg) (d : D) :
  (0 <= z <= 255)%Z ->
  data = None \/ data = Some (DBytes []) ->
  send_packet (CmdInt z) data timeout d = ser_write [Z.to_N z; 0%N] timeout d.
Proof.
  intros Hz Hdata. unfold send_packet, bind, lift_result.
  rewrite (type_convert_cmd_in_range z Hz).
  destruct Hdata as [-> | ->]; reflexivity.
Qed.

(** A packet with data: [write] is never reached. *)
Lemma send_packet_data_unbound (z timeout : Z) (payload : list N) (d : D) :
  (0 <= z <= 255)%Z ->
  payload <> [] ->
  send_packet (CmdInt z) (Some (DBytes payload)) timeout d =
    (read_local "buf" (@None unit), d).
Proof.
  intros Hz Hne. unfold send_packet, bind, lift_result.
  rewrite (type_convert_cmd_in_range z Hz).
  destruct payload as [|b payload]; [done|]. reflexivity.
Qed.

(** C10: for every [num_bytes] and every [timeout], [peek] has no bytes to
    give back: when the call of the driver returns, whatever it read, the
    value of [peek] is [None]; when it raises, so does [peek]. *)
Theorem peek_returns_None (num_bytes timeout : Z) (d : D) :
  (forall b d', peek num_bytes timeout d <> (Ok (Some b), d')) /\
  peek num_bytes timeout d =
    match ser_peek_bytes num_bytes timeout d with
    | (Ok _, d') => (Ok None, d')
    | (Raise e, d') => (Raise e, d')
    end.
Proof.
  unfold peek, bind, ret.
  destruct (ser_peek_bytes num_bytes timeout d) as [[read|e] d1];
    split; congruence.
Qed.

(** [buf.endswith(b"\x00")] on a frame that ends with the terminator. *)
Lemma endswith_frame (body : list N) :
  endswith (body ++ [0%N]) _frame_byte = true.
Proof.
  unfold endswith, _frame_byte. apply bool_decide_eq_true.
  rewrite length_app. simpl.
  replace (length body + 1 - 1)%nat with (length body) by lia.
  by rewrite drop_app_length.
Qed.

Lemma strip_terminator (body : list N) :
  take (length (body ++ [0%N]) - 1) (body ++ [0%N]) = body.
Proof.
  rewrite length_app. simpl.
  replace (length body + 1 - 1)%nat with (length body) by lia.
  by rewrite take_app_length.
Qed.

Lemma decode_frame_signal (cmd : N) :
  decode_frame [cmd; 0%N] = Ok (cmd, None).
Proof. reflexivity. Qed.

(** The data branch of [decode_frame], once the block is unstuffed. *)
Lemma decode_frame_data (cmd : N) (encoded data : list N) (crc : N) :
  _cobs_unstuff_data encoded 0 = Ok (data ++ [crc]) ->
  decode_frame (cmd :: encoded ++ [0%N]) =
    if decide (_calc_crc data = crc) then Ok (cmd, Some data)
    else raise ValueError "read_packet: CRC mismatch".
Proof.
  intros Hdec. unfold decode_frame.
  change (cmd :: encoded ++ [0%N]) with ((cmd :: encoded) ++ [0%N]).
  rewrite (endswith_frame (cmd :: encoded)). simpl negb. cbv iota.
  rewrite (strip_terminator (cmd :: encoded)).
  assert (Hne : encoded <> []).
  { intros ->. simpl in Hdec. by destruct data. }
  rewrite bool_decide_eq_false_2; last first.
  { destruct encoded; [done | simpl; lia]. }
  simpl. rewrite drop_0, Hdec.
  rewrite bool_decide_eq_false_2 by (rewrite length_app; simpl; lia).
  rewrite last_snoc.
  replace (length (data ++ [crc]) - 1)%nat with (length data)
    by (rewrite length_app; simpl; lia).
  rewrite take_app_length.
  destruct (decide (_calc_crc data = crc)) as [Heq | Hneq].
  - apply N.eqb_eq in Heq. by rewrite Heq.
  - apply N.eqb_neq in Hneq. by rewrite Hneq.
Qed.

(** C6: when [read_until] has delivered a frame [cmd :: encoded ++ [0]]:
    a one-byte frame yields [(cmd, None)]; a data frame whose block decodes
    to [data ++ [crc]] fails with the CRC-mismatch [ValueError] when
    [_calc_crc data] differs from [crc], and yields [(cmd, data)] when they
    agree. *)
Theorem read_packet_crc_check (turns : nat) (d d' : D) (cmd : N)
    (encoded : list N) :
  read_until (DBytes _frame_byte) turns d =
    (Ok (cmd :: encoded ++ [0%N]), d') ->
  (encoded = [] -> read_packet turns d = (Ok (cmd, None), d')) /\
  (forall data crc,
     _cobs_unstuff_data encoded 0 = Ok (data ++ [crc]) ->
     (_calc_crc data <> crc ->
      read_packet turns d =
        (raise ValueError "read_packet: CRC mismatch", d')) /\
     (_calc_crc data = crc ->
      read_packet turns d = (Ok (cmd, Some data), d'))).
Proof.
  intros Hread. unfold read_packet, bind. rewrite Hread.
  unfold lift_result. split.
  - intros ->. by rewrite decode_frame_signal.
  - intros data crc Hdec.
    rewrite (decode_frame_data cmd encoded data crc Hdec).
    split; intros Hcrc.
    + by rewrite decide_False.
    + by rewrite decide_True.
Qed.

End TargetSerialFacts.

Section WireFacts.

Import Codec TargetSerial.

(** On a wire, [read_until] with the frame byte as the sequence returns the
    bytes up to and including the first [0], provided the clock lets the
    loop turn once per byte. *)
Lemma read_until_loop_wire_frame (frame rest : list N) (tx0 : list (list N))
    (turns : nat) (result buffer : list N) :
  Forall (fun b => b <> 0%N) frame ->
  (length buffer <= 1)%nat ->
  (length frame < turns)%nat ->
  read_until_loop turns [0%N] result buffer (mk_Wire (frame ++ 0%N :: rest) tx0)
  = (Ok (result ++ frame ++ [0%N]), mk_Wire rest tx0).
Proof.
  revert turns result buffer.
  induction frame as [|b frame IH]; intros turns result buffer Hnz Hbuf Hturns.
  - destruct turns as [|turns]; [simpl in Hturns; lia|].
    simpl. unfold bind. simpl.
    rewrite drop_0.
    assert (Hd : deque_append 1 buffer 0%N = [0%N]).
    { unfold deque_append. rewrite length_app. simpl.
      destruct buffer as [|x [|y buffer]]; simpl in *; try done; lia. }
    rewrite Hd. simpl. done.
  - destruct turns as [|turns]; [simpl in Hturns; lia|].
    apply Forall_cons in Hnz as [Hb Hnz].
    simpl. unfold bind. simpl. rewrite drop_0.
    assert (Hd : deque_append 1 buffer b = [b]).
    { unfold deque_append. rewrite length_app. simpl.
      destruct buffer as [|x [|y buffer]]; simpl in *; try done; lia. }
    rewrite Hd. simpl.
    rewrite (bool_decide_eq_false_2 ([b] = [0%N])) by congruence.
    simpl. rewrite IH; [|done|simpl; lia|simpl in Hturns; lia].
    by rewrite <- app_assoc.
Qed.

Lemma read_until_wire_frame (frame rest : list N) (tx0 : list (list N))
    (turns : nat) :
  Forall (fun b => b <> 0%N) frame ->
  (length frame < turns)%nat ->
  read_until (DBytes _frame_byte) turns (mk_Wire (frame ++ 0%N :: rest) tx0)
  = (Ok (frame ++ [0%N]), mk_Wire rest tx0).
Proof.
  intros Hnz Hturns. unfold read_until, bind, lift_result. simpl.
  unfold _frame_byte.
  rewrite read_until_loop_wire_frame; [done | done | simpl; lia | done].
Qed.

(** C6, at a concrete frame read from a wire. *)
Lemma read_packet_crc_check_witness :
  read_until (DBytes _frame_byte) 10 (mk_Wire sample_frame []) =
    (Ok (102%N :: [3; 17; 228]%N ++ [0%N]), mk_Wire [] []) /\
  _cobs_unstuff_data [3; 17; 228]%N 0 = Ok ([17%N] ++ [228%N]) /\
  _calc_crc [17%N] = 228%N /\
  read_packet 10 (mk_Wire sample_frame []) =
    (Ok (102%N, Some [17%N]), mk_Wire [] []).
Proof.
  assert (Hread : read_until (DBytes _frame_byte) 10 (mk_Wire sample_frame [])
                  = (Ok (102%N :: [3; 17; 228]%N ++ [0%N]), mk_Wire [] []))
    by reflexivity.
  assert (Hdec : _cobs_unstuff_data [3; 17; 228]%N 0 = Ok ([17%N] ++ [228%N]))
    by reflexivity.
  assert (Hcrc : _calc_crc [17%N] = 228%N) by reflexivity.
  split; [exact Hread|]. split; [exact Hdec|]. split; [exact Hcrc|].
  exact (proj2 (proj2 (read_packet_crc_check 10 _ _ 102%N [3; 17; 228]%N Hread)
                  [17%N] 228%N Hdec) Hcrc).
Defined.

(** The same frame with its last payload byte changed: the CRC check
    refuses it. *)
Example read_packet_corrupted :
  read_packet 10 (mk_Wire [102; 3; 17; 229; 0]%N []) =
    (raise ValueError "read_packet: CRC mismatch", mk_Wire [] []).
Proof. reflexivity. Qed.

(** On a wire [peek] returns [None] whatever is waiting. *)
Example peek_wire (num_bytes timeout : Z) (w : Wire) :
  peek num_bytes timeout w = (Ok None, w).
Proof. reflexivity. Qed.

(** C4: with command 1 and the one-byte payload [0x11], [send_packet]
    raises [UnboundLocalError] and writes nothing, where the frame to write
    was [[1] ++ COBS([0x11, crc]) ++ [0]]; with no payload it writes
    [[1, 0]]. *)
Theorem send_packet_with_data_writes_nothing :
  send_packet (CmdInt 1) (Some (DBytes [17%N])) 0 (mk_Wire [] []) =
    (raise UnboundLocalError
       "cannot access local variable 'buf' where it is not associated with a value",
     mk_Wire [] []) /\
  [1%N] ++ _cobs_stuff_data ([17%N] ++ [_calc_crc [17%N]]) 0 ++ [0%N]
    = [1; 3; 17; 228; 0]%N /\
  send_packet (CmdInt 1) None 0 (mk_Wire [] []) =
    (Ok tt, mk_Wire [] [[1; 0]%N]).
Proof. repeat split. Qed.

End WireFacts.

(** The only check that [send_packet] makes on a command is the one of
    [type_convert_cmd], against the range of a byte: a command outside
    [0, 255] fails with [ValueError] whatever the payload, and nothing is
    written; a command inside it, with no payload, is written followed by
    the terminator. *)
Lemma send_packet_validates_byte_range {D : Type} `{!SerialDriver D}
    (z : Z) (data : option TargetSerial.data_arg) (timeout : Z) (d : D) :
  ((z < 0 \/ 255 < z)%Z ->
   TargetSerial.send_packet (TargetSerial.CmdInt z) data timeout d =
     (raise ValueError
        ("Command `" +:+ str_Z z +:+ "` out of byte range (0-255)"), d)) /\
  ((0 <= z <= 255)%Z ->
   TargetSerial.send_packet (TargetSerial.CmdInt z) None timeout d =
     ser_write [Z.to_N z; 0%N] timeout d).
Proof.
  split.
  - intros Hz. unfold TargetSerial.send_packet, bind, lift_result.
    by rewrite (type_convert_cmd_out_of_range z Hz).
  - intros Hz. apply send_packet_signal; auto.
Qed.

Section CommandZeroFacts.

Import Codec TargetSerial.

(** C7: command 0 is not refused.  [type_convert_cmd] accepts it, and for
    every driver [send_packet] with command 0 and no payload hands the two
    bytes [[0, 0]] to the driver, where the class takes a command to be any
    byte but the frame byte 0.  On a wire the call succeeds, and what it
    wrote cannot be read back as a packet: [read_packet] stops at the first
    zero and finds no command byte. *)
Theorem send_packet_command_0_not_refused {D : Type} `{!SerialDriver D}
    (timeout : Z) (d : D) :
  type_convert_cmd (CmdInt 0) = Ok 0%N /\
  send_packet (CmdInt 0) None timeout d = ser_write [0; 0]%N timeout d /\
  send_packet (CmdInt 0) None 0 (mk_Wire [] []) =
    (Ok tt, mk_Wire [] [[0; 0]%N]) /\
  read_packet 10 (mk_Wire [0; 0]%N []) =
    (raise IndexError "index out of range", mk_Wire [0%N] []).
Proof.
  split; [reflexivity|]. split; [|split; reflexivity].
  apply (send_packet_signal 0 timeout None d); [lia | by left].
Qed.

End CommandZeroFacts.

(** * Properties of the profiler *)

Section RegistryFacts.

Import CSProfiler.

Lemma find_packet_None (config : list SimpleSerialPacket) (cmd : N) :
  find_packet config cmd = None <-> cmd ∉ command <$> config.
Proof.
  induction config as [|q config IH]; simpl.
  - split; [intros _; apply not_elem_of_nil | done].
  - destruct (decide (command q = cmd)) as [Heq | Hne].
    + split; [done|]. intros Hnotin. exfalso. apply Hnotin.
      rewrite <- Heq. apply list_elem_of_here.
    + rewrite IH, not_elem_of_cons. clear IH. split; [auto | tauto].
Qed.


Lemma list_remove_other (x c : N) (l : list N) :
  x <> c -> x ∈ list_remove c l <-> x ∈ l.
Proof.
  intros Hne. induction l as [|y l IH]; simpl; [done|].
  destruct (decide (y = c)) as [-> | Hyc].
  - rewrite elem_of_cons. clear IH. split; [auto | intros [Hx | Hx]; done].
  - rewrite !elem_of_cons, IH. done.
Qed.

(** After the removal of the packets of one command, that command is bound
    by nothing. *)
Lemma filter_other_commands (c : N) (config : list SimpleSerialPacket) :
  filter (fun q => command q = c)
         (filter (fun q => command q <> c) config) = [].
Proof.
  induction config as [|q config IH]; [done|].
  rewrite (filter_cons (fun q => command q <> c)).
  destruct (decide (command q <> c)) as [Hne | Heq]; [|exact IH].
  rewrite filter_cons_False; [exact IH | exact Hne].
Qed.

Lemma find_packet_app_fresh (c : N) (config : list SimpleSerialPacket)
    (packet : SimpleSerialPacket) :
  command packet = c ->
  find_packet (filter (fun q => command q <> c) config ++ [packet]) c
  = Some packet.
Proof.
  intros Hc. induction config as [|q config IH]; simpl.
  - by rewrite decide_True.
  - rewrite (filter_cons (fun q => command q <> c)).
    destruct (decide (command q <> c)) as [Hne | Heq]; [|exact IH].
    simpl. rewrite decide_False; [exact IH | exact Hne].
Qed.

Lemma commands_of_filter (x c : N) (config : list SimpleSerialPacket) :
  x ∈ command <$> filter (fun q => command q <> c) config <->
  x <> c /\ x ∈ command <$> config.
Proof.
  rewrite !list_elem_of_fmap. split.
  - intros (q & -> & Hq). apply list_elem_of_filter in Hq as [Hne Hin].
    split; [done | eauto].
  - intros (Hne & q & -> & Hq). exists q. split; [done|].
    apply list_elem_of_filter. done.
Qed.

Lemma NoDup_commands_filter (c : N) (config : list SimpleSerialPacket) :
  NoDup (command <$> config) ->
  NoDup (command <$> filter (fun q => command q <> c) config).
Proof.
  induction config as [|q config IH]; [done|].
  rewrite fmap_cons, NoDup_cons. intros [Hq Hnd].
  rewrite (filter_cons (fun q => command q <> c)).
  destruct (decide (command q <> c)) as [Hne | Heq]; [|auto].
  rewrite fmap_cons, NoDup_cons. split; [|auto].
  rewrite commands_of_filter. tauto.
Qed.

(** The registry built by the constructor is consistent. *)
Lemma new_registry_ok (glitch_configs : list GlitchConfig) (n : nat)
    (config : option (list SimpleSerialPacket)) (w : World) :
  registry_ok (new glitch_configs n config w).
Proof. intros c. reflexivity. Qed.

(** What [addSimpleSerialCommand] does when it goes through. *)
Lemma addSimpleSerialCommand_Ok (packet : SimpleSerialPacket)
    (overwrite : bool) (p p' : CSProfiler) :
  addSimpleSerialCommand packet overwrite p = (Ok tt, p') ->
  command packet <> 0%N /\
  (((command packet ∉ valid_commands p) /\
    p' = set_registry (simpleserial_config p ++ [packet])
           (valid_commands p ++ [command packet]) p) \/
   ((command packet ∈ valid_commands p) /\ overwrite = true /\
    p' = set_registry
           (filter (fun q => command q <> command packet)
                   (simpleserial_config p) ++ [packet])
           (list_remove (command packet) (valid_commands p)
              ++ [command packet]) p)).
Proof.
  unfold addSimpleSerialCommand.
  destruct (decide (command packet = 0%N)) as [H0 | H0]; [done|].
  unfold bind, get, modify, throw, ret.
  destruct (bool_decide (command packet ∈ valid_commands p)) eqn:Hin.
  - apply bool_decide_eq_true in Hin.
    destruct overwrite; simpl; [|done].
    intros [= <-]. split; [done|]. right. done.
  - apply bool_decide_eq_false in Hin. simpl.
    intros [= <-]. split; [done|]. left. done.
Qed.

Lemma addSimpleSerialCommand_bound (packet : SimpleSerialPacket)
    (overwrite : bool) (p : CSProfiler) :
  command packet <> 0%N ->
  command packet ∈ valid_commands p ->
  addSimpleSerialCommand packet overwrite p =
    if overwrite then
      (Ok tt,
       set_registry
         (filter (fun q => command q <> command packet)
                 (simpleserial_config p) ++ [packet])
         (list_remove (command packet) (valid_commands p)
            ++ [command packet]) p)
    else
      (Raise (Exn KeyError
         ("addCommand: Command '" +:+ pretty (command packet)
          +:+ "' already exists in valid_commands.")), p).
Proof.
  intros H0 Hbound. unfold addSimpleSerialCommand.
  rewrite decide_False by done.
  unfold bind, get, modify, throw, ret.
  rewrite bool_decide_eq_true_2 by done.
  by destruct overwrite.
Qed.

(** [l.remove(x)] on a list without repetitions leaves no [x]. *)
Lemma list_remove_NoDup (x : N) (l : list N) :
  NoDup l -> NoDup (list_remove x l) /\ x ∉ list_remove x l.
Proof.
  induction l as [|y l IH]; simpl.
  - intros _. split; [constructor | apply not_elem_of_nil].
  - rewrite NoDup_cons. intros [Hy Hnd].
    destruct (decide (y = x)) as [-> | Hne]; [done|].
    destruct (IH Hnd) as [IH1 IH2]. split.
    + apply NoDup_cons. split; [|done].
      rewrite list_remove_other by done. done.
    + rewrite elem_of_cons. intros [-> | Hin]; done.
Qed.

Lemma filter_absent (c : N) (l : list N) :
  c ∉ l -> filter (fun x => x = c) l = [].
Proof.
  induction l as [|y l IH]; [done|].
  rewrite not_elem_of_cons. intros [Hne Hl].
  rewrite filter_cons_False by (by intros ->). by apply IH.
Qed.

(** On commands without repetitions, [valid_commands.remove] and the
    filter of the configuration remove the same entry. *)
Lemma list_remove_commands (c : N) (config : list SimpleSerialPacket) :
  NoDup (command <$> config) ->
  list_remove c (command <$> config)
  = command <$> filter (fun q => command q <> c) config.
Proof.
  induction config as [|q config IH]; [done|].
  rewrite fmap_cons, NoDup_cons. intros [Hq Hnd]. simpl.
  rewrite (filter_cons (fun q => command q <> c)).
  destruct (decide (command q = c)) as [Heq | Hne].
  - rewrite decide_False by (intros H; by apply H).
    subst c. clear IH. induction config as [|q' config IH]; [done|].
    rewrite fmap_cons in Hq, Hnd. rewrite not_elem_of_cons in Hq.
    destruct Hq as [Hne Hq]. apply NoDup_cons in Hnd as [_ Hnd].
    rewrite (filter_cons (fun q0 => command q0 <> command q)).
    rewrite decide_True by (intros H; by apply Hne).
    rewrite !fmap_cons. f_equal. by apply IH.
  - rewrite decide_True by done. rewrite fmap_cons. f_equal. by apply IH.
Qed.

(** C8: in a consistent registry, a packet of command 0 is refused whatever
    [overwrite] is; a packet whose command is already bound is refused
    without [overwrite], and with [overwrite] it takes the place of the old
    binding: the new configuration holds exactly one packet of that
    command, the new one, which is the one that the lookup of
    [handlePacket] finds; and every registration that goes through keeps
    the registry consistent and the commands pairwise distinct, in the
    configuration and in [valid_commands]: the old entry of the command is
    removed from [valid_commands], which then holds the command once and
    lists the commands of the configuration in order. *)
Theorem addSimpleSerialCommand_unique (p : CSProfiler)
    (packet : SimpleSerialPacket) :
  registry_ok p ->
  (forall overwrite, command packet = 0%N ->
     addSimpleSerialCommand packet overwrite p =
       (Raise (Exn KeyError
          "SimpleSerial command cannot be 0 since zero is the termination character."),
        p)) /\
  (command packet <> 0%N ->
   command packet ∈ command <$> simpleserial_config p ->
     addSimpleSerialCommand packet false p =
       (Raise (Exn KeyError
          ("addCommand: Command '" +:+ pretty (command packet)
           +:+ "' already exists in valid_commands.")), p) /\
     exists p',
       addSimpleSerialCommand packet true p = (Ok tt, p') /\
       filter (fun q => command q = command packet)
              (simpleserial_config p') = [packet] /\
       find_packet (simpleserial_config p') (command packet) = Some packet) /\
  (forall overwrite p',
     addSimpleSerialCommand packet overwrite p = (Ok tt, p') ->
     registry_ok p' /\
     (NoDup (command <$> simpleserial_config p) ->
      NoDup (command <$> simpleserial_config p')) /\
     (NoDup (valid_commands p) ->
      NoDup (valid_commands p') /\
      filter (fun c => c = command packet) (valid_commands p')
        = [command packet]) /\
     (valid_commands p = command <$> simpleserial_config p ->
      NoDup (valid_commands p) ->
      valid_commands p' = command <$> simpleserial_config p')).
Proof.
  intros Hok. split; [|split].
  - intros overwrite H0. unfold addSimpleSerialCommand.
    by rewrite decide_True.
  - intros H0 Hbound. apply Hok in Hbound.
    rewrite !addSimpleSerialCommand_bound by done.
    split; [done|]. eexists. split; [reflexivity|]. simpl.
    split.
    + rewrite filter_app, filter_other_commands. simpl.
      by rewrite filter_cons_True, filter_nil.
    + by apply find_packet_app_fresh.
  - intros overwrite p' Hadd.
    apply addSimpleSerialCommand_Ok in Hadd
      as [H0 [[Hfresh ->] | (Hbound & -> & ->)]]; simpl.
    + split; [|split; [|split]].
      * intros c. simpl. rewrite fmap_app, !elem_of_app, (Hok c). done.
      * intros Hnd. rewrite fmap_app. apply NoDup_app.
        split; [done|]. split; [|apply NoDup_singleton].
        intros c Hc. simpl. rewrite list_elem_of_singleton. intros ->.
        apply Hfresh, Hok, Hc.
      * intros Hnd. split.
        -- apply NoDup_app. split; [done|]. split; [|apply NoDup_singleton].
           intros c Hc. rewrite list_elem_of_singleton. by intros ->.
        -- rewrite filter_app.
           rewrite (filter_absent _ _ Hfresh). simpl.
           by rewrite filter_cons_True, filter_nil.
      * intros Heq _. by rewrite fmap_app, Heq.
    + split; [|split; [|split]].
      * intros c. simpl. rewrite fmap_app, !elem_of_app. simpl.
        rewrite commands_of_filter, !list_elem_of_singleton.
        destruct (decide (c = command packet)) as [-> | Hne]; [tauto|].
        rewrite list_remove_other by done. rewrite (Hok c). tauto.
      * intros Hnd. rewrite fmap_app. apply NoDup_app.
        split; [by apply NoDup_commands_filter|].
        split; [|apply NoDup_singleton].
        intros c Hc. simpl. rewrite list_elem_of_singleton. intros ->.
        apply commands_of_filter in Hc. tauto.
      * intros Hnd.
        destruct (list_remove_NoDup (command packet) _ Hnd) as [Hnd' Hgone].
        split.
        -- apply NoDup_app. split; [done|]. split; [|apply NoDup_singleton].
           intros c Hc. rewrite list_elem_of_singleton. by intros ->.
        -- rewrite filter_app.
           rewrite (filter_absent _ _ Hgone). simpl.
           by rewrite filter_cons_True, filter_nil.
      * intros Heq Hnd. rewrite fmap_app. simpl. f_equal.
        rewrite Heq. apply list_remove_commands. by rewrite <- Heq.
Qed.

End RegistryFacts.

Section DispatchFacts.

Import CSProfiler Samples.

(** A command that no packet of the configuration carries: the test on
    [matched_packet] reads an unbound name. *)
Lemma handlePacket_unknown_command (p : CSProfiler) (cmd : N)
    (data : option (list N)) :
  cmd ∉ command <$> simpleserial_config p ->
  handlePacket cmd data p =
    (raise UnboundLocalError
       "cannot access local variable 'matched_packet' where it is not associated with a value",
     p).
Proof.
  intros Hcmd. apply find_packet_None in Hcmd.
  unfold handlePacket, bind, get, lift_result. by rewrite Hcmd.
Qed.

(** C5: with the default configuration, the packet of the unregistered
    command [x] (120) makes [handlePacket] fail with [UnboundLocalError],
    and not with the [ValueError] that names the command. *)
Theorem handlePacket_unknown_command_unbound :
  let p := new [] 1 None quiet_world in
(120%N ∉ valid_commands p) /\
  handlePacket 120 None p =
    (raise UnboundLocalError
       "cannot access local variable 'matched_packet' where it is not associated with a value",
     p) /\
  fst (handlePacket 120 None p) <>
    raise ValueError "No matching packet definition found for command: `120`".
Proof.
  cbv zeta. split; [|split].
  - intros Hin. vm_compute in Hin.
    repeat (apply elem_of_cons in Hin as [Hin | Hin]; [discriminate Hin|]).
    by apply not_elem_of_nil in Hin.
  - reflexivity.
  - discriminate.
Qed.

(** C8, at the registration made by [test_profile_target.py]: a new packet
    for the command [f] (102) of the default configuration. *)
Lemma addSimpleSerialCommand_unique_witness :
  let p := new [] 1 None quiet_world in
  let packet :=
    mk_packet 102 "Fault signal from target with buffer content (fault)"
      resetPacketHandler in
  registry_ok p /\
  addSimpleSerialCommand packet false p =
    (Raise (Exn KeyError
       "addCommand: Command '102' already exists in valid_commands."), p) /\
  exists p',
    addSimpleSerialCommand packet true p = (Ok tt, p') /\
    filter (fun q => command q = 102%N) (simpleserial_config p') = [packet] /\
    find_packet (simpleserial_config p') 102 = Some packet.
Proof.
  cbv zeta.
  set (p := new [] 1 None quiet_world).
  set (packet := mk_packet 102 _ resetPacketHandler).
  assert (Hok : registry_ok p) by (intros c; reflexivity).
  assert (H0 : command packet <> 0%N) by discriminate.
  assert (Hbound : command packet ∈ command <$> simpleserial_config p).
  { vm_compute. do 3 apply list_elem_of_further. apply list_elem_of_here. }
  split; [exact Hok|].
  exact (proj1 (proj2 (addSimpleSerialCommand_unique p packet Hok)) H0 Hbound).
Defined.

End DispatchFacts.

Section CampaignFacts.

Import CSProfiler Samples.

(** The assertion of [run_config], in integers. *)
Lemma duration_check_spec (glitch_config : GlitchConfig) :
  (faulting_duation_ms glitch_config < inject_Z (dead_timeout glitch_config))%Q
  <->
  ((pulse_width glitch_config + pulse_spacing glitch_config)
   * pulse_repeats glitch_config
   < dead_timeout glitch_config * 1000000)%Z.
Proof.
  unfold faulting_duation_ms, Qlt, Qdiv, Qmult, Qinv, inject_Z. simpl.
  lia.
Qed.

(** C9, as stated, does not hold: a train of 180 ns is not shorter than a
    dead timeout of 100 when the two numbers are compared as they stand,
    and yet the configuration runs: the duration is first converted to
    milliseconds. *)
Lemma duration_check_converts_to_ms :
  ~ (forall (glitch_config : GlitchConfig) (fuel position_index
             config_index : nat) (p : CSProfiler),
       ~ ((pulse_width glitch_config + pulse_spacing glitch_config)
          * pulse_repeats glitch_config < dead_timeout glitch_config)%Z ->
       exists msg,
         run_config fuel position_index config_index glitch_config p =
           Some (raise AssertionError msg, p)).
Proof.
  intros Hclaim.
  destruct (Hclaim sample_config 10%nat 0%nat 0%nat
              (new [sample_config] 1 None quiet_world)) as [msg Hrun].
  - vm_compute. discriminate.
  - vm_compute in Hrun. discriminate Hrun.
Qed.

(** C9, amended: a configuration whose train of faults, converted to
    milliseconds, is not shorter than [dead_timeout] makes its turn of the
    loop over the configurations fail with [AssertionError] before the turn
    has acted on the hardware or on the profiler, and no later
    configuration is run.  (Stated for durations below [2^53] ns and dead
    timeouts below [2^33] ms, where the exact quotient stands for the
    floating-point one.) *)
Theorem run_config_asserts_duration (glitch_config : GlitchConfig)
    (fuel position_index config_index : nat) (rest : list GlitchConfig)
    (p : CSProfiler) :
  (0 <= (pulse_width glitch_config + pulse_spacing glitch_config)
        * pulse_repeats glitch_config < 2 ^ 53)%Z ->
  (0 <= dead_timeout glitch_config < 2 ^ 33)%Z ->
  (dead_timeout glitch_config * 1000000
   <= (pulse_width glitch_config + pulse_spacing glitch_config)
      * pulse_repeats glitch_config)%Z ->
  run_config fuel position_index config_index glitch_config p =
    Some (raise AssertionError "Faulting for longer than dead_timeout", p) /\
  for_configs fuel position_index config_index (glitch_config :: rest) p =
    Some (raise AssertionError "Faulting for longer than dead_timeout", p).
Proof.
  intros _ _ Hlong.
  assert (Hrun : run_config fuel position_index config_index glitch_config p =
            Some (raise AssertionError "Faulting for longer than dead_timeout",
                  p)).
  { unfold run_config.
    destruct (Qlt_le_dec _ _) as [Hlt | Hle]; [|reflexivity].
    apply duration_check_spec in Hlt. lia. }
  split; [exact Hrun|].
  simpl. unfold bindD. by rewrite Hrun.
Qed.

Lemma run_config_asserts_duration_witness :
  run_config 10 0 0 long_train_config
    (new [long_train_config] 1 None quiet_world) =
    Some (raise AssertionError "Faulting for longer than dead_timeout",
          new [long_train_config] 1 None quiet_world) /\
  for_configs 10 0 0 [long_train_config; sample_config]
    (new [long_train_config] 1 None quiet_world) =
    Some (raise AssertionError "Faulting for longer than dead_timeout",
          new [long_train_config] 1 None quiet_world).
Proof.
  apply (run_config_asserts_duration long_train_config 10 0 0 [sample_config]);
    simpl; lia.
Defined.

(** When the budget of retries is spent, the handler binds [num_skipped]
    to an integer, in place of the list of counters, and leaves the loop. *)
Lemma on_error_budget_spent (position_index config_index : nat)
    (glitch_config : GlitchConfig) (e : exn) (fr : frame)
    (config_results : gmap string pyval) :
  (3 <= retry_count fr)%nat ->
  results (self fr) !! config_index = Some config_results ->
  exists fr',
    on_error position_index config_index glitch_config e fr = (Ok Break, fr')
    /\ results (self fr') =
         <[config_index :=
             <["num_skipped" :=
                 PInt (num_executions glitch_config - execution_index fr)]>
               config_results]> (results (self fr))
    /\ execution_index fr' = execution_index fr
    /\ retry_count fr' = retry_count fr.
Proof.
  intros Hspent Hres. unfold on_error.
  set (e' := match e with RetryError _ (Some (c, a)) => Exn c a | _ => e end).
  unfold bind, on_self, zoom, modify, get. simpl.
  rewrite bool_decide_eq_false_2 by lia.
  unfold on_config_results. simpl. rewrite Hres. simpl.
  eexists. split; [reflexivity|]. by simpl.
Qed.

Lemma same_counts_refl (fr : frame) : same_counts fr fr.
Proof. by split. Qed.

Lemma same_counts_trans (fr1 fr2 fr3 : frame) :
  same_counts fr1 fr2 -> same_counts fr2 fr3 -> same_counts fr1 fr3.
Proof. intros [H1 H2] [H3 H4]. split; congruence. Qed.

(** A request to the hardware leaves the counts alone. *)
Lemma on_world_same_counts {A} (m : M World A) (fr : frame)
    (r : result A) (fr' : frame) :
  on_self (on_world m) fr = (r, fr') -> same_counts fr fr'.
Proof.
  unfold on_self, on_world, zoom.
  destruct (m (world (self fr))) as [r0 w]. intros [= <- <-]. by split.
Qed.

Lemma bind_fails {A B} (m : M frame A) (k : A -> M frame B) (fr : frame) :
  (forall r fr1, m fr = (r, fr1) -> same_counts fr fr1) ->
  (forall a fr1, m fr = (Ok a, fr1) -> fails_with_same_counts (k a) fr1) ->
  fails_with_same_counts (bind m k) fr.
Proof.
  intros Hm Hk. unfold fails_with_same_counts, bind.
  destruct (m fr) as [[a|e] fr1] eqn:Hrun.
  - destruct (Hk a fr1 eq_refl) as (e & fr2 & Hka & Hsame).
    exists e, fr2. split; [done|].
    eapply same_counts_trans; [by eapply Hm | done].
  - exists e, fr1. split; [done|]. by eapply Hm.
Qed.

(** [config_results[key] += 1] on a key that is not bound. *)
Lemma incr_entry_missing (key : string) (ci : nat) (fr : frame)
    (cr : gmap string pyval) :
  results (self fr) !! ci = Some cr ->
  cr !! key = None ->
  on_config_results ci (incr_entry key) fr = (raise KeyError key, fr).
Proof.
  intros Hres Hkey. unfold on_config_results, incr_entry.
  by rewrite Hres, Hkey.
Qed.

(** Reset, count, advance: the reset may fail, and if it does not, the
    count does. *)
Lemma count_fails (key : string) (ci : nat) (fr fr0 : frame)
    (cr : gmap string pyval) :
  results (self fr0) !! ci = Some cr ->
  cr !! key = None ->
  same_counts fr0 fr ->
  fails_with_same_counts
    (bind (on_self (on_world (reset_target 3)))
       (fun _ => bind (on_config_results ci (incr_entry key))
          (fun _ => bind get (fun fr =>
             modify (set_execution_index (execution_index fr + 1)))))) fr.
Proof.
  intros Hres Hkey Hsame. apply bind_fails.
  - intros r fr1. apply on_world_same_counts.
  - intros a fr1 Hreset. apply on_world_same_counts in Hreset.
    assert (Hres1 : results (self fr1) !! ci = Some cr).
    { destruct Hsame as [_ H1], Hreset as [_ H2]. by rewrite H2, H1. }
    exists (Exn KeyError key), fr1. split; [|apply same_counts_refl].
    unfold bind. by rewrite (incr_entry_missing key ci fr1 cr).
Qed.

Lemma fails_bind_Ok {A B} (m : M frame A) (k : A -> M frame B)
    (fr fr1 : frame) (a : A) :
  m fr = (Ok a, fr1) ->
  same_counts fr fr1 ->
  fails_with_same_counts (k a) fr1 ->
  fails_with_same_counts (bind m k) fr.
Proof.
  intros Hm Hsame (e & fr2 & Hk & Hsame2). exists e, fr2.
  unfold bind. rewrite Hm. split; [done|].
  by eapply same_counts_trans.
Qed.

(** The second tier never completes: whenever the error text of the tier
    comes in with budget left, on results whose keys [soft_bricked] and
    [hard_bricked] are not bound, the handler raises, no count is recorded
    and the execution index stays where it was. *)
Lemma on_error_tier2_raises (position_index config_index : nat)
    (glitch_config : GlitchConfig) (cls : exn_class) (fr : frame)
    (config_results : gmap string pyval) :
  cls <> KeyError ->
  retry_count fr < 3 ->
  results (self fr) !! config_index = Some config_results ->
  config_results !! "soft_bricked" = None ->
  config_results !! "hard_bricked" = None ->
  fails_with_same_counts
    (on_error position_index config_index glitch_config
       (Exn cls "ChipWhisperer: reset_target timed out")) fr.
Proof.
  intros Hcls Hretry Hres Hsoft Hhard. unfold on_error.
  assert (Hstr : str_exn (Exn cls "ChipWhisperer: reset_target timed out")
                 = "ChipWhisperer: reset_target timed out")
    by (by destruct cls).
  rewrite Hstr.
  rewrite (bool_decide_eq_false_2
             ("ChipWhisperer: reset_target timed out" ∈ tier1_errors))
    by (intros H; vm_compute in H;
        repeat (apply elem_of_cons in H as [H|H]; [discriminate H|]);
        by apply not_elem_of_nil in H).
  rewrite (bool_decide_eq_true_2
             ("ChipWhisperer: reset_target timed out" ∈ tier2_errors))
    by apply list_elem_of_here.
  eapply fails_bind_Ok; [reflexivity | by split |].
  eapply fails_bind_Ok; [reflexivity | by split |].
  simpl retry_count. rewrite bool_decide_eq_true_2 by done.
  eapply fails_bind_Ok; [reflexivity | by split |].
  match goal with |- fails_with_same_counts _ ?f => set (fr3 := f) end.
  assert (Hres3 : results (self fr3) !! config_index = Some config_results)
    by exact Hres.
  clearbody fr3.
  do 3 (apply bind_fails; [intros r fr4; apply on_world_same_counts|];
        intros [] fr4 Hhw; apply on_world_same_counts in Hhw;
        assert (Hres4 : results (self fr4) !! config_index = Some config_results)
          by (destruct Hhw as [_ ->]; exact Hres3);
        clear Hhw Hres3 fr3; rename fr4 into fr3, Hres4 into Hres3).
  destruct (count_fails "soft_bricked" config_index fr3 fr3 config_results
              Hres3 Hsoft (same_counts_refl _))
    as (e1 & fr4 & Hbody & Hsame4).
  match goal with
  | |- fails_with_same_counts (bind (try_except _ ?h) _) _ =>
      assert (Hh : fails_with_same_counts (h e1) fr4)
  end.
  { apply bind_fails; [intros r fr5; apply on_world_same_counts|].
    intros [] fr5 Hflash. apply on_world_same_counts in Hflash.
    apply (count_fails "hard_bricked" config_index fr5 fr3 config_results);
      [done | done | by eapply same_counts_trans]. }
  destruct Hh as (e2 & fr6 & Hh & Hsame6).
  exists e2, fr6. split; [|by eapply same_counts_trans].
  unfold bind at 1, try_except. rewrite Hbody. by rewrite Hh.
Qed.

(** The dictionaries of results that the constructor builds hold the
    counters under [num_soft_bricked] and [num_hard_bricked]: the keys
    [soft_bricked] and [hard_bricked] are not bound. *)
Lemma new_results_keys (glitch_configs : list GlitchConfig) (n : nat)
    (config : option (list SimpleSerialPacket)) (w : World)
    (config_index : nat) (config_results : gmap string pyval) :
  results (new glitch_configs n config w) !! config_index
    = Some config_results ->
  config_results !! "soft_bricked" = None /\
  config_results !! "hard_bricked" = None.
Proof.
  simpl. rewrite list_lookup_fmap.
  destruct (glitch_configs !! config_index); simpl; [|done].
  intros [= <-]. split; vm_compute; reflexivity.
Qed.

(** C2: two positions, one configuration of five executions.  Position 0
    records one skipped execution; at position 1 the ChipSHOUTER fails four
    times in a row.  The fourth failure finds the budget spent, and
    [num_skipped] becomes the integer 5, where the counters were
    [[1, 0]] and were to become [[1, 5]]. *)
Theorem skipped_counters_replaced_by_int :
  let p0 := new [sample_config] 2 None silent_shouter_world in
  let r1 := test_position 20 0 p0 in
  let p1 := state_after r1 p0 in
  let r2 := test_position 20 1 p1 in
  let p2 := state_after r2 p1 in
  fst <$> r1 = Some (Ok tt) /\
  counters p1 0 "num_skipped" = Some (PList [IInt 1; IInt 0]) /\
  fst <$> r2 = Some (Ok tt) /\
  length (catched_errors p2) = 4%nat /\
  counters p2 0 "num_skipped" = Some (PInt 5) /\
  counters p2 0 "num_skipped" <> Some (PList [IInt 1; IInt 5]).
Proof.
  cbv zeta. vm_compute. repeat split; discriminate.
Qed.

(** C3: (1) an execution that fails with the error text of the second tier
    brings the power cycle and a reset that succeeds, and then the
    statement that should count a soft recovery raises [KeyError]: the key
    is [soft_bricked], the counters are under [num_soft_bricked].  The
    [except] clause around it takes this for a failed reset and reflashes;
    its own count raises [KeyError] in turn, out of [test_position]: no
    counter has moved and the execution index has not advanced.  (2) The
    error that [reset_target] raises carries another text, so a reset that
    times out does not reach the second tier at all: it is raised again
    as an unknown error. *)
Theorem tier2_raises_KeyError :
  let p0 := new [sample_config] 1 None reset_timeout_world in
  let fr0 := {| self := p0; execution_index := 0; retry_count := 0 |} in
  let '(r, fr1) := iteration 0 0 sample_config fr0 in
  let q0 := new [sample_config] 1 None dead_target_world in
  let gr0 := {| self := q0; execution_index := 0; retry_count := 0 |} in
  let '(r', gr1) := iteration 0 0 sample_config gr0 in
  (r = Raise (Exn KeyError "hard_bricked") /\
   execution_index fr1 = 0%Z /\
   results (self fr1) = results p0 /\
   trace (world (self fr1)) =
     [ TestExecution 0 0 0; CsDisarm; CwPowerCycleUsb; SerialConnect;
       CwResetTarget;
       CwFlash "./target-firmware/build/emfi-profiler-CW308_STM32F4.hex";
       CwResetTarget ] /\
   fst <$> test_position 20 0 p0 = Some (Raise (Exn KeyError "hard_bricked")))
  /\
  (fst (reset_target 3 dead_target_world) =
     Raise (Exn ResetTimeoutError "Failed to reset target after 3 tries!") /\
   r' = Raise (Exn ResetTimeoutError "Failed to reset target after 3 tries!") /\
   trace (world (self gr1)) = [TestExecution 0 0 0]).
Proof.
  vm_compute. repeat split.
Qed.

End CampaignFacts.

(** * More properties of the codec *)

(** One turn of the decoder, under a name that the equations of the
    definition do not take. *)
Lemma unstuff_loop_turn (buf : list N) (fb : N) (index : nat)
    (acc : list N) :
  Codec.unstuff_loop buf fb index acc =
    match buf !! index with
    | None => Ok acc
    | Some code =>
        if decide (code = 0%N) then
          raise ValueError "Invalid COBS: code byte cannot be 0"
        else if decide (length buf < S index + N.to_nat code - 1) then
          raise ValueError "Invalid COBS: block extends past end of buffer"
        else
          let end_ := S index + N.to_nat code - 1 in
          let out1 := acc ++ slice buf (S index) end_ in
          Codec.unstuff_loop buf fb end_
            (if (code <? 0xFF)%N && bool_decide (end_ < length buf)
             then out1 ++ [fb] else out1)
    end.
Proof. exact (unstuff_loop_unfold buf fb index acc). Qed.

Section CodecMoreFacts.

Import Codec.

Lemma stuffed_step_lost_zero (pre : list N) (st : stuff_state) :
  stuffed pre st ->
  code st = 255%N ->
  stuffed pre (stuff_step 0 st 0).
Proof.
  intros [enc dec cur Hout Hidx Hcode Hlen Hpre Hdec] Hfull.
  unfold stuff_step. simpl orb. simpl negb. cbv iota.
  rewrite Hout, Hidx, close_block.
  apply (stuffed_intro _ _ (enc ++ code st :: cur) (dec ++ cur) []);
    simpl; try done.
  - lia.
  - by rewrite app_nil_r.
  - intros rest acc Hrest. rewrite <- app_assoc. simpl.
    rewrite Hdec by done. rewrite Hcode.
    rewrite unstuff_loop_block by done.
    rewrite bool_decide_eq_false_2 by lia. simpl.
    by rewrite app_nil_r, <- app_assoc.
Qed.

Lemma stuffed_fold_survivors (buf pre : list N) (st : stuff_state) :
  stuffed pre st ->
  stuffed (pre ++ survivors (code st) buf) (fold_left (stuff_step 0) buf st).
Proof.
  revert pre st. induction buf as [|b buf IH]; intros pre st Hst.
  - by rewrite app_nil_r.
  - simpl survivors. simpl fold_left.
    destruct (N.eqb_spec b 0) as [-> | Hb].
    + destruct (N.eqb_spec (code st) 255) as [Hfull | Hroom].
      * specialize (IH pre _ (stuffed_step_lost_zero pre st Hst Hfull)).
        replace (code (stuff_step 0 st 0)) with 1%N in IH; [exact IH|].
        unfold stuff_step. simpl. done.
      * assert (Hs : stuffed (pre ++ [0%N]) (stuff_step 0 st 0)).
        { apply stuffed_step; [done|]. simpl. by apply N.eqb_neq. }
        specialize (IH _ _ Hs).
        replace (code (stuff_step 0 st 0)) with 1%N in IH
          by (unfold stuff_step; simpl; done).
        by rewrite <- app_assoc in IH.
    + assert (Hs : stuffed (pre ++ [b]) (stuff_step 0 st b)).
      { apply stuffed_step; [done|]. by rewrite (proj2 (N.eqb_neq b 0) Hb). }
      specialize (IH _ _ Hs).
      replace (code (stuff_step 0 st b))
        with (if (code st =? 255)%N then 2%N else (code st + 1)%N) in IH.
      * by rewrite <- app_assoc in IH.
      * unfold stuff_step. rewrite (proj2 (N.eqb_neq b 0) Hb). simpl.
        by destruct (code st =? 255)%N.
Qed.

Lemma survivors_safe (buf : list N) (c : N) :
  survivors c buf = buf <-> zero_never_closes_full_block c buf = true.
Proof.
  revert c. induction buf as [|b buf IH]; intros c; simpl; [done|].
  assert (Hlen : forall c', length (survivors c' buf) <= length buf).
  { clear. induction buf as [|b buf IH]; intros c; simpl; [done|].
    destruct (b =? 0)%N; [destruct (c =? 255)%N|]; simpl;
      try (specialize (IH 1%N); lia).
    specialize (IH (if (c =? 255)%N then 2%N else (c + 1)%N)). lia. }
  destruct (b =? 0)%N.
  - destruct (c =? 255)%N; simpl.
    + split; [|done]. intros Heq.
      apply (f_equal length) in Heq. simpl in Heq.
      specialize (Hlen 1%N). lia.
    + rewrite <- IH. split; [by intros [= ->] | by intros ->].
  - rewrite <- IH. split; [by intros [= ->] | by intros ->].
Qed.

(** X1: for every buffer, decoding what the encoder produced succeeds and
    returns the buffer without the zero bytes that the encoder met while
    its block was full; that is the buffer itself exactly when there is no
    such zero. *)
Theorem cobs_roundtrip_image (buf : list N) :
  _cobs_unstuff_data (_cobs_stuff_data buf 0) 0 = Ok (survivors 1 buf) /\
  (survivors 1 buf = buf <-> zero_never_closes_full_block 1 buf = true).
Proof.
  split; [|apply survivors_safe].
  destruct buf as [|b0 buf0] eqn:Hbuf; [done|].
  rewrite <- Hbuf.
  destruct (stuffed_fold_survivors buf [] stuff_init stuffed_init)
    as [enc dec cur Hout Hidx Hcode Hlen Hpre Hdec].
  assert (Hs : _cobs_stuff_data buf 0
               = enc ++ code (fold_left (stuff_step 0) buf stuff_init) :: cur).
  { unfold _cobs_stuff_data. rewrite Hbuf. rewrite <- Hbuf.
    cbv zeta. rewrite Hout, Hidx. apply close_block. }
  rewrite Hs, _cobs_unstuff_data_loop.
  rewrite Hdec by done.
  rewrite Hcode.
  replace cur with (cur ++ []) at 2 by apply app_nil_r.
  rewrite unstuff_loop_block by done.
  rewrite unstuff_loop_nil. simpl in Hpre. rewrite Hpre.
  rewrite (bool_decide_eq_true_2 (@nil N = [])) by done.
  simpl negb. rewrite andb_false_r. simpl. by rewrite app_nil_r.
Qed.

Lemma stuff_step_shape (st : stuff_state) (b : N) :
  stuff_shape st -> stuff_shape (stuff_step 0 st b).
Proof.
  intros (enc & cur & Hout & Hidx & Henc & Hcur & Hcode).
  assert (Hclosed : Forall (fun x => x <> 0%N) (enc ++ code st :: cur)).
  { apply Forall_app. split; [done|]. by apply Forall_cons. }
  unfold stuff_step.
  destruct (N.eqb_spec b 0) as [-> | Hb]; simpl orb; simpl negb; cbv iota.
  - rewrite Hout, Hidx, close_block.
    exists (enc ++ code st :: cur), []. simpl. by repeat split.
  - destruct (N.eqb_spec (code st) 255) as [Hfull | Hroom]; cbv iota.
    + rewrite Hout, Hidx, close_block.
      exists (enc ++ code st :: cur), [b]. simpl.
      repeat split; try done.
      * by rewrite <- app_assoc.
      * by apply Forall_singleton.
    + exists enc, (cur ++ [b]). simpl. repeat split; try done.
      * rewrite Hout. by rewrite <- app_assoc.
      * apply Forall_app. split; [done | by apply Forall_singleton].
      * lia.
Qed.

Lemma stuff_fold_shape (buf : list N) (st : stuff_state) :
  stuff_shape st -> stuff_shape (fold_left (stuff_step 0) buf st).
Proof.
  revert st. induction buf as [|b buf IH]; intros st Hst; [done|].
  simpl. by apply IH, stuff_step_shape.
Qed.

Lemma stuff_data_nonzero (buf : list N) :
  Forall (fun x => x <> 0%N) (_cobs_stuff_data buf 0).
Proof.
  destruct buf as [|b0 buf0] eqn:Hbuf; [by apply Forall_nil|].
  rewrite <- Hbuf. unfold _cobs_stuff_data. rewrite Hbuf. rewrite <- Hbuf.
  cbv zeta.
  destruct (stuff_fold_shape buf stuff_init)
    as (enc & cur & Hout & Hidx & Henc & Hcur & Hcode).
  { exists [], []. by repeat split. }
  rewrite Hout, Hidx, close_block.
  apply Forall_app. split; [done|]. by apply Forall_cons.
Qed.

(** X2: what [_cobs_stuff_data] returns for the frame byte 0 holds no zero
    byte, so the terminator of a packet is the first zero after a
    non-zero command. *)
Theorem cobs_stuffed_has_no_zero (buf : list N) :
  0%N ∉ _cobs_stuff_data buf 0.
Proof.
  intros Hin. by apply (proj1 (Forall_forall _ _) (stuff_data_nonzero buf) 0%N).
Qed.

Lemma stuff_step_size (n : nat) (st : stuff_state) (b : N) :
  stuff_size n st -> stuff_size (S n) (stuff_step 0 st b).
Proof.
  intros (Hlo & Hhi & Hcode & Hidx). unfold stuff_size, stuff_step.
  destruct (N.eqb_spec b 0) as [-> | Hb]; simpl orb; simpl negb; cbv iota.
  - simpl. rewrite length_app, length_insert. simpl. lia.
  - destruct (N.eqb_spec (code st) 255) as [Hfull | Hroom]; cbv iota; simpl.
    + rewrite !length_app, length_insert. simpl. lia.
    + rewrite !length_app. simpl. lia.
Qed.

Lemma stuff_fold_size (buf : list N) (n : nat) (st : stuff_state) :
  stuff_size n st ->
  stuff_size (n + length buf) (fold_left (stuff_step 0) buf st).
Proof.
  revert n st. induction buf as [|b buf IH]; intros n st Hst.
  - simpl. by replace (n + 0) with n by lia.
  - simpl. replace (n + S (length buf)) with (S n + length buf) by lia.
    by apply IH, stuff_step_size.
Qed.

(** X3: the encoding of a non-empty buffer is longer than the buffer by
    at least one byte and by at most one byte more for every 254 bytes. *)
Theorem cobs_stuffed_length (buf : list N) :
  buf <> [] ->
  length buf + 1 <= length (_cobs_stuff_data buf 0)
  /\ length (_cobs_stuff_data buf 0) <= length buf + 1 + length buf / 254.
Proof.
  intros Hne.
  assert (Hsize : stuff_size (0 + length buf)
                    (fold_left (stuff_step 0) buf stuff_init)).
  { apply stuff_fold_size. unfold stuff_size. simpl. lia. }
  destruct Hsize as (Hlo & Hhi & _ & _). simpl in Hlo, Hhi.
  assert (Hlen : length (_cobs_stuff_data buf 0)
                 = length (out (fold_left (stuff_step 0) buf stuff_init))).
  { unfold _cobs_stuff_data. destruct buf as [|b0 buf0] eqn:Hbuf; [done|].
    rewrite <- Hbuf. cbv zeta. apply length_insert. }
  rewrite Hlen. split; [lia|].
  assert (Hq : length (out (fold_left (stuff_step 0) buf stuff_init))
               - length buf - 1 <= length buf / 254).
  { apply Nat.div_le_lower_bound; lia. }
  lia.
Qed.

(** The decoder: what comes out is shorter than what went in. *)
Lemma unstuff_loop_length (buf : list N) (fb : N) (n i : nat)
    (acc decoded : list N) :
  n = length buf - i ->
  i < length buf ->
  unstuff_loop buf fb i acc = Ok decoded ->
  length decoded + 1 <= length acc + (length buf - i).
Proof.
  revert i acc. induction n as [n IH] using lt_wf_ind.
  intros i acc Hn Hi Hrun. rewrite unstuff_loop_turn in Hrun.
  destruct (buf !! i) as [c|] eqn:Hc; [|apply lookup_ge_None in Hc; lia].
  destruct (decide (c = 0%N)); [done|].
  destruct (decide (length buf < S i + N.to_nat c - 1)) as [|Hend]; [done|].
  cbv zeta in Hrun.
  assert (Hslice : length (slice buf (S i) (S i + N.to_nat c - 1))
                   = N.to_nat c - 1).
  { unfold slice. rewrite length_take, length_drop. lia. }
  destruct (decide (S i + N.to_nat c - 1 < length buf)) as [Hmore | Hlast].
  - rewrite bool_decide_eq_true_2, andb_true_r in Hrun by done.
    eapply (IH (length buf - (S i + N.to_nat c - 1))) in Hrun;
      [|lia|reflexivity|done].
    destruct (c <? 255)%N;
      rewrite ?length_app, Hslice in Hrun; simpl in Hrun; lia.
  - rewrite bool_decide_eq_false_2 in Hrun by done.
    rewrite andb_false_r in Hrun.
    rewrite unstuff_loop_turn in Hrun.
    rewrite (proj2 (lookup_ge_None buf (S i + N.to_nat c - 1))) in Hrun by lia.
    assert (Hd : decoded = acc ++ slice buf (S i) (S i + N.to_nat c - 1))
      by congruence.
    rewrite Hd, length_app, Hslice. lia.
Qed.

(** X4: whenever [_cobs_unstuff_data] succeeds, what it returns is
    shorter than what it was given, unless both are empty. *)
Theorem cobs_unstuffed_shorter (buf decoded : list N) :
  _cobs_unstuff_data buf 0 = Ok decoded ->
  (buf = [] /\ decoded = []) \/ length decoded < length buf.
Proof.
  destruct buf as [|c buf]; [intros [= <-]; by left|].
  intros Hdec. right. simpl in Hdec.
  eapply unstuff_loop_length in Hdec; [|reflexivity|simpl; lia].
  simpl in *. lia.
Qed.

End CodecMoreFacts.

Section CrcFacts.

Import Codec TargetSerialMore.

Lemma all_bytes_spec (x : N) : (x < 256)%N <-> x ∈ all_bytes.
Proof.
  unfold all_bytes. rewrite list_elem_of_fmap. split.
  - intros Hx. exists (N.to_nat x). split; [lia|].
    apply elem_of_seq. lia.
  - intros (n & -> & Hn). apply elem_of_seq in Hn. lia.
Qed.

(** A property of bytes that a run over the 256 of them confirms. *)
Lemma for_all_bytes (P : N -> bool) :
  forallb P all_bytes = true -> forall x, (x < 256)%N -> P x = true.
Proof.
  intros Hall x Hx. rewrite forallb_forall in Hall.
  apply Hall, list_elem_of_In, all_bytes_spec, Hx.
Qed.

Lemma for_all_bytes2 (P : N -> N -> bool) :
  forallb (fun x => forallb (P x) all_bytes) all_bytes = true ->
  forall x y, (x < 256)%N -> (y < 256)%N -> P x y = true.
Proof.
  intros Hall x y Hx Hy.
  apply (for_all_bytes (P x)); [|done].
  by apply (for_all_bytes (fun x => forallb (P x) all_bytes)).
Qed.

Lemma crc_byte_0_lt (b : N) : (b < 256)%N -> (crc_byte 0 b < 256)%N.
Proof.
  intros Hb. apply N.ltb_lt.
  apply (for_all_bytes (fun b => crc_byte 0 b <? 256)%N); [|exact Hb].
  vm_compute. reflexivity.
Qed.

Lemma lxor_byte (x y : N) : (x < 256)%N -> (y < 256)%N -> (N.lxor x y < 256)%N.
Proof.
  intros Hx Hy. apply N.ltb_lt.
  apply (for_all_bytes2 (fun x y => N.lxor x y <? 256)%N);
    [|exact Hx|exact Hy].
  vm_compute. reflexivity.
Qed.

Lemma crc_byte_lxor (s b : N) : crc_byte s b = crc_byte 0 (N.lxor s b).
Proof. unfold crc_byte. by rewrite N.lxor_0_l. Qed.

Lemma crc_byte_lt (s b : N) :
  (s < 256)%N -> (b < 256)%N -> (crc_byte s b < 256)%N.
Proof.
  intros Hs Hb. rewrite crc_byte_lxor. by apply crc_byte_0_lt, lxor_byte.
Qed.

(** The eight shifts are linear over the exclusive or of bytes... *)
Lemma crc_byte_0_linear (x y : N) :
  (x < 256)%N -> (y < 256)%N ->
  crc_byte 0 (N.lxor x y) = N.lxor (crc_byte 0 x) (crc_byte 0 y).
Proof.
  intros Hx Hy. apply N.eqb_eq.
  apply (for_all_bytes2
    (fun x y => crc_byte 0 (N.lxor x y)
                =? N.lxor (crc_byte 0 x) (crc_byte 0 y))%N);
    [|exact Hx|exact Hy].
  vm_compute. reflexivity.
Qed.

(** ... and send no byte but zero to zero. *)
Lemma crc_byte_0_nonzero (x : N) :
  (x < 256)%N -> x <> 0%N -> crc_byte 0 x <> 0%N.
Proof.
  intros Hx Hnz Hcrc.
  assert (H : implb (crc_byte 0 x =? 0)%N (x =? 0)%N = true).
  { apply (for_all_bytes
             (fun x => implb (crc_byte 0 x =? 0)%N (x =? 0)%N)); [|exact Hx].
    vm_compute. reflexivity. }
  apply N.eqb_eq in Hcrc. rewrite Hcrc in H. simpl in H.
  by apply N.eqb_eq in H.
Qed.

(** Two runs of the CRC over the same bytes, from states that differ,
    end in states that differ. *)
Lemma crc_fold_differs (buf : list N) (s d : N) :
  Forall (fun b => (b < 256)%N) buf ->
  (s < 256)%N -> (d < 256)%N -> d <> 0%N ->
  fold_left crc_byte buf (N.lxor s d) <> fold_left crc_byte buf s.
Proof.
  revert s d. induction buf as [|b buf IH]; intros s d Hbuf Hs Hd Hnz.
  - simpl. intros Heq. apply Hnz.
    assert (Hd' : d = N.lxor s (N.lxor s d))
      by (by rewrite <- N.lxor_assoc, N.lxor_nilpotent, N.lxor_0_l).
    rewrite Hd', Heq. apply N.lxor_nilpotent.
  - apply Forall_cons in Hbuf as [Hb Hbuf]. simpl.
    rewrite (crc_byte_lxor (N.lxor s d) b), (crc_byte_lxor s b).
    replace (N.lxor (N.lxor s d) b) with (N.lxor (N.lxor s b) d)
      by (rewrite !N.lxor_assoc; f_equal; apply N.lxor_comm).
    rewrite crc_byte_0_linear by (try apply lxor_byte; done).
    apply IH; try done.
    + by apply crc_byte_0_lt, lxor_byte.
    + by apply crc_byte_0_lt.
    + by apply crc_byte_0_nonzero.
Qed.

(** The state of the CRC stays a byte. *)
Lemma crc_fold_lt (buf : list N) (s : N) :
  (s < 256)%N -> (fold_left crc_byte buf s < 256)%N.
Proof.
  revert s. induction buf as [|b buf IH]; intros s Hs; [done|].
  simpl. apply IH. unfold crc_byte. simpl.
  unfold crc_shift at 1.
  destruct (negb _).
  - rewrite (N.land_ones _ 8). by apply N.mod_lt.
  - rewrite (N.land_ones _ 8). by apply N.mod_lt.
Qed.

(** X5: [_calc_crc] returns a byte, whatever the items of the buffer. *)
Theorem calc_crc_is_byte (buf : list N) : (_calc_crc buf < 256)%N.
Proof. unfold _calc_crc. by apply crc_fold_lt. Qed.

(** X6: a change confined to one byte of the data changes the CRC. *)
Theorem calc_crc_detects_byte_change (pre post : list N) (b b' : N) :
  Forall (fun x => (x < 256)%N) (pre ++ b :: post) ->
  (b' < 256)%N ->
  b' <> b ->
  _calc_crc (pre ++ b' :: post) <> _calc_crc (pre ++ b :: post).
Proof.
  intros Hbytes Hb' Hne.
  apply Forall_app in Hbytes as [Hpre Hpost].
  apply Forall_cons in Hpost as [Hb Hpost].
  unfold _calc_crc. rewrite !fold_left_app. simpl.
  set (s := fold_left crc_byte pre 0%N).
  assert (Hs : (s < 256)%N) by by apply crc_fold_lt.
  rewrite (crc_byte_lxor s b'), (crc_byte_lxor s b).
  set (d := N.lxor b' b).
  assert (Hd : (d < 256)%N) by by apply lxor_byte.
  assert (Hdnz : d <> 0%N).
  { intros H0. apply Hne. by apply N.lxor_eq. }
  replace (N.lxor s b') with (N.lxor (N.lxor s b) d).
  - rewrite crc_byte_0_linear by (try apply lxor_byte; done).
    apply crc_fold_differs; try done.
    + by apply crc_byte_0_lt, lxor_byte.
    + by apply crc_byte_0_lt.
    + by apply crc_byte_0_nonzero.
  - unfold d. rewrite N.lxor_assoc. f_equal.
    by rewrite (N.lxor_comm b' b), <- N.lxor_assoc, N.lxor_nilpotent,
      N.lxor_0_l.
Qed.

(** X7: [_verify_crc] accepts a buffer exactly when it is a non-empty data
    followed by the CRC of that data; a lone byte is refused. *)
Theorem verify_crc_spec (data : list N) (c : N) :
  _verify_crc (data ++ [c]) =
    bool_decide (data <> [] /\ c = _calc_crc data).
Proof.
  unfold _verify_crc. rewrite length_app. simpl.
  destruct data as [|b data].
  - reflexivity.
  - rewrite bool_decide_eq_false_2 by (simpl; lia).
    rewrite last_snoc.
    replace (length (b :: data) + 1 - 1) with (length (b :: data)) by lia.
    rewrite take_app_length.
    destruct (N.eqb_spec (_calc_crc (b :: data)) c) as [Heq | Hneq].
    + by rewrite bool_decide_eq_true_2.
    + rewrite bool_decide_eq_false_2; [done|]. intros [_ ->]. done.
Qed.

End CrcFacts.

(** * More properties of the packet protocol *)

Section ConversionFacts.

Import Codec TargetSerial TargetSerialMore.
Context {D : Type} `{!SerialDriver D}.

(** X8: [type_convert_data] on a list of integers succeeds exactly when
    every one of them is in [0, 255], and then returns them as bytes. *)
Theorem type_convert_data_ints (l : list Z) (b : list N) :
  type_convert_data (DInts l) = Ok b <->
  Forall (fun z => (0 <= z <= 255)%Z) l /\ b = Z.to_N <$> l.
Proof.
  simpl. revert b. induction l as [|z l IH]; intros b; simpl.
  - split; [intros [= <-]; by split | by intros [_ ->]].
  - destruct (0 <=? z)%Z eqn:Hlo, (z <=? 255)%Z eqn:Hhi; simpl.
    2-4: split; [done|]; intros [Hall _]; apply Forall_cons in Hall as [Hz _];
         apply Z.leb_gt in Hlo || apply Z.leb_gt in Hhi; lia.
    apply Z.leb_le in Hlo, Hhi.
    destruct (bytearray_of_ints l) as [b0|e] eqn:Hrec.
    + destruct (IH b0) as [IH1 _]. destruct (IH1 eq_refl) as [Hall ->].
      split.
      * intros [= <-]. split; [by apply Forall_cons|done].
      * by intros [_ ->].
    + split; [done|]. intros [Hall ->].
      apply Forall_cons in Hall as [_ Hall].
      destruct (IH (Z.to_N <$> l)) as [_ IH2]. by specialize (IH2 (conj Hall eq_refl)).
Qed.

(** The deque of [read_until] holds the last bytes of what was read. *)
Lemma deque_append_last (m : nat) (result : list N) (b : N) :
  deque_append m (drop (length result - m) result) b
  = drop (length (result ++ [b]) - m) (result ++ [b]).
Proof.
  unfold deque_append. rewrite !length_app, length_drop. simpl.
  destruct (decide (m <= length result)) as [Hle | Hgt].
  - set (k := length result - m).
    replace (length result - k + 1 - m) with 1 by lia.
    replace (length result + 1 - m) with (k + 1) by lia.
    rewrite <- (take_drop k result) at 2.
    rewrite <- app_assoc.
    rewrite drop_app_add'; [done|].
    rewrite length_take. lia.
  - replace (length result - m) with 0 by lia.
    replace (length result - 0 + 1 - m) with 0 by lia.
    replace (length result + 1 - m) with 0 by lia.
    by rewrite !drop_0.
Qed.

Lemma read_until_loop_first (sequence : list N) (turns : nat)
    (result buffer res : list N) (d d' : D) :
  buffer = drop (length result - length sequence) result ->
  (forall n, 0 < n <= length result -> endswith (take n result) sequence = false) ->
  read_until_loop turns sequence result buffer d = (Ok res, d') ->
  forall n, 0 < n < length res -> endswith (take n res) sequence = false.
Proof.
  revert result buffer d.
  induction turns as [|turns IH]; intros result buffer d Hbuf Hnone; simpl.
  - intros [= <- <-] n Hn. apply Hnone. lia.
  - unfold bind.
    destruct (ser_read_bytes 1 10 d) as [[byte_read|e] d1]; [|done].
    destruct byte_read as [|b rest]; [by apply IH|].
    rewrite Hbuf, deque_append_last.
    set (result' := result ++ [b]).
    destruct (bool_decide (length (drop (length result' - length sequence) result') = length sequence)
              && bool_decide (drop (length result' - length sequence) result' = sequence)) eqn:Hfound.
    + intros [= <- <-] n Hn. unfold result' in *.
      rewrite length_app in Hn. simpl in Hn.
      rewrite take_app_le by lia. apply Hnone. lia.
    + apply IH; [done|].
      intros n Hn. unfold result' in *. rewrite length_app in Hn. simpl in Hn.
      destruct (decide (n <= length result)) as [Hle | Hgt].
      * rewrite take_app_le by lia. apply Hnone. lia.
      * replace n with (length (result ++ [b]))
          by (rewrite length_app; simpl; lia).
        rewrite firstn_all. unfold endswith.
        apply bool_decide_eq_false. intros Heq.
        rewrite Heq in Hfound.
        rewrite !bool_decide_eq_true_2 in Hfound by done. done.
Qed.

(** X9: for every driver, what [read_until] returns has no proper prefix
    that ends with the sequence: the loop stops at the first occurrence. *)
Theorem read_until_stops_at_first (sequence : list N) (turns : nat)
    (d d' : D) (res : list N) :
  read_until (DBytes sequence) turns d = (Ok res, d') ->
  forall n, 0 < n < length res -> endswith (take n res) sequence = false.
Proof.
  unfold read_until, bind, lift_result. simpl. intros Hrun.
  eapply read_until_loop_first; [| |exact Hrun]; [done|].
  intros n Hn. simpl in Hn. lia.
Qed.


(** X10: [send_ack] hands its timeout to [send_packet] as the data.  With
    the timeout 0 the signal packet of the command is written; with a
    timeout in [1, 255] the call raises [UnboundLocalError] and with any
    other [ValueError], nothing being written. *)
Theorem send_ack_takes_timeout_as_data (z timeout : Z) (d : D) :
  (0 <= z <= 255)%Z ->
  (timeout = 0%Z ->
   send_ack (CmdInt z) timeout d = ser_write [Z.to_N z; 0%N] 0 d) /\
  ((1 <= timeout <= 255)%Z ->
   send_ack (CmdInt z) timeout d =
     (raise UnboundLocalError
        "cannot access local variable 'buf' where it is not associated with a value",
      d)) /\
  ((timeout < 0 \/ 255 < timeout)%Z ->
   send_ack (CmdInt z) timeout d =
     (raise ValueError ("Integer out of byte range: " +:+ str_Z timeout), d)).
Proof.
  intros Hz. unfold send_ack, send_packet, bind, lift_result.
  rewrite (type_convert_cmd_in_range z Hz). unfold truthy.
  split; [|split].
  - intros ->. reflexivity.
  - intros Ht. rewrite (proj2 (Z.eqb_neq timeout 0)) by lia.
    unfold type_convert_data.
    rewrite (proj2 (Z.leb_le 0 timeout)), (proj2 (Z.leb_le timeout 255)) by lia.
    reflexivity.
  - intros Ht. rewrite (proj2 (Z.eqb_neq timeout 0)) by lia.
    unfold type_convert_data.
    destruct (0 <=? timeout)%Z eqn:Hlo, (timeout <=? 255)%Z eqn:Hhi;
      try reflexivity.
    apply Z.leb_le in Hlo, Hhi. lia.
Qed.

(** X11: what [type_convert_data] returns for data that are not bytes
    already is made of bytes, and is not empty when the data were true. *)
Theorem type_convert_data_is_bytes (data : data_arg) (b : list N) :
  type_convert_data data = Ok b ->
  (forall raw, data <> DBytes raw) ->
  Forall (fun x => (x < 256)%N) b /\ (truthy data = true -> b <> []).
Proof.
  intros Hconv Hraw. destruct data as [raw | l | s | z | ty t]; simpl in *.
  - by destruct (Hraw raw).
  - split.
    + revert b Hconv. induction l as [|z l IH]; intros b; simpl.
      * intros [= <-]. constructor.
      * destruct ((0 <=? z)%Z && (z <=? 255)%Z) eqn:Hz; [|done].
        apply andb_true_iff in Hz as [Hlo Hhi].
        apply Z.leb_le in Hlo, Hhi.
        destruct (bytearray_of_ints l) as [b0|e]; [|done].
        intros [= <-]. apply Forall_cons. split; [lia | by apply IH].
    + destruct l as [|z l]; [done|]. intros _. simpl in Hconv.
      destruct ((0 <=? z)%Z && (z <=? 255)%Z); [|done].
      destruct (bytearray_of_ints l); [|done]. by injection Hconv as <-.
  - split.
    + revert b Hconv. induction s as [|c s IH]; intros b; simpl.
      * intros [= <-]. constructor.
      * destruct (Ascii.N_of_ascii c <? 128)%N eqn:Hc; [|done].
        apply N.ltb_lt in Hc.
        destruct (encode_ascii s) as [b0|e]; [|done].
        intros [= <-]. apply Forall_cons. split; [lia | by apply IH].
    + destruct s as [|c s]; [done|]. intros _. simpl in Hconv.
      destruct (Ascii.N_of_ascii c <? 128)%N; [|done].
      destruct (encode_ascii s); [|done]. by injection Hconv as <-.
  - destruct (0 <=? z)%Z eqn:Hlo, (z <=? 255)%Z eqn:Hhi; simpl in Hconv;
      try done.
    injection Hconv as <-. apply Z.leb_le in Hlo, Hhi.
    split; [|done]. apply Forall_singleton. lia.
  - done.
Qed.

End ConversionFacts.

Section FrameFacts.

Import Codec TargetSerial TargetSerialMore.

(** [decode_frame] undoes what [send_packet] assembles. *)
Lemma decode_frame_assembled_packet (cmd : N) (data : list N) :
  data <> [] ->
  zero_never_closes_full_block 1 (data ++ [_calc_crc data]) = true ->
  decode_frame (assembled_packet cmd data) = Ok (cmd, Some data).
Proof.
  intros Hne Hsafe. unfold assembled_packet. cbv zeta.
  change ([cmd] ++ _cobs_stuff_data (data ++ [_calc_crc data]) 0 ++ [0%N])
    with (cmd :: _cobs_stuff_data (data ++ [_calc_crc data]) 0 ++ [0%N]).
  rewrite (decode_frame_data cmd _ data (_calc_crc data)).
  - by rewrite decide_True.
  - by apply cobs_roundtrip_safe.
Qed.

(** X12: the packet round trip.  What [send_packet] assembles for a
    command and a non-empty data, [decode_frame] takes apart into that
    command and that data; and on a wire that delivers the packet,
    [read_packet] returns them and leaves what follows the packet, as long
    as the command is not the frame byte and no zero of the data and its
    CRC is met while the block of the encoder is full. *)
Theorem read_packet_receives_assembled_packet (cmd : N) (data rest : list N)
    (tx0 : list (list N)) (turns : nat) :
  data <> [] ->
  zero_never_closes_full_block 1 (data ++ [_calc_crc data]) = true ->
  decode_frame (assembled_packet cmd data) = Ok (cmd, Some data) /\
  (cmd <> 0%N ->
   length (assembled_packet cmd data) <= turns ->
   read_packet turns (mk_Wire (assembled_packet cmd data ++ rest) tx0)
   = (Ok (cmd, Some data), mk_Wire rest tx0)).
Proof.
  intros Hne Hsafe.
  pose proof (decode_frame_assembled_packet cmd data Hne Hsafe) as Hdec.
  split; [exact Hdec|]. intros Hcmd Hturns.
  unfold read_packet, bind.
  set (frame := cmd :: _cobs_stuff_data (data ++ [_calc_crc data]) 0).
  assert (Hpkt : assembled_packet cmd data = frame ++ [0%N]) by done.
  replace (assembled_packet cmd data ++ rest) with (frame ++ 0%N :: rest)
    by (by rewrite Hpkt, <- app_assoc).
  rewrite (read_until_wire_frame frame rest tx0 turns).
  - unfold lift_result. by rewrite <- Hpkt, Hdec.
  - apply Forall_cons. split; [done | apply stuff_data_nonzero].
  - rewrite Hpkt, length_app in Hturns.
    change (length [0%N]) with 1 in Hturns. clearbody frame. lia.
Qed.

(** X13: an acknowledgement of a command is its signal packet.  On a wire,
    [send_packet] with no data writes the command and a zero, and
    [wait_ack] for the command takes two bytes: it returns 0 when they are
    those two, and otherwise 1 (also when fewer than two arrived), after
    emptying the receive buffer if [_flush_on_err] is set. *)
Theorem wait_ack_awaits_signal_packet (flush_on_err : bool) (z timeout : Z)
    (rx : list N) (tx : list (list N)) :
  (1 <= z <= 255)%Z ->
  send_packet (CmdInt z) None 0 (mk_Wire rx tx) =
    (Ok tt, mk_Wire rx (tx ++ [[Z.to_N z; 0%N]])) /\
  wait_ack flush_on_err (AckInt z) timeout (mk_Wire rx tx) =
    (if bool_decide (take 2 rx = [Z.to_N z; 0%N])
     then (Ok OK, mk_Wire (drop 2 rx) tx)
     else (Ok ERR_CMD, mk_Wire (if flush_on_err then [] else drop 2 rx) tx)).
Proof.
  intros Hz. split.
  - rewrite (send_packet_signal z 0 None); [done | lia | by left].
  - unfold wait_ack, bind, lift_result. unfold ack_truthy.
    rewrite (proj2 (Z.eqb_neq z 0)) by lia. simpl negb. cbv iota.
    unfold ack_cmd. rewrite type_convert_cmd_in_range by lia.
    unfold ret at 1. cbv beta iota.
    unfold wait_for_sequence, bind, lift_result. simpl type_convert_data.
    cbv beta iota. unfold read, bind. simpl.
    change (Z.to_nat (Z.of_nat 2)) with 2.
    destruct (bool_decide (take 2 rx = [Z.to_N z; 0%N])); [done|].
    by destruct flush_on_err.
Qed.

End FrameFacts.

(** * More properties of the profiler *)

Section ResultTypeFacts.

Import CSProfiler CSProfilerMore.

Lemma new_counters_ready (glitch_configs : list GlitchConfig) (n : nat)
    (config : option (list SimpleSerialPacket)) (w : World) :
  counters_ready (new glitch_configs n config w).
Proof.
  intros key res Hkey Hres. simpl in Hres.
  apply list_elem_of_fmap in Hres as (g & -> & _).
  unfold zero_counters. simpl num_positions.
  destruct Hkey as [label Hkey].
  change ((list_to_map default_result_types : gmap string string) !! key
          = Some label) in Hkey.
  apply elem_of_list_to_map_2 in Hkey.
  unfold default_result_types in Hkey.
  repeat (apply elem_of_cons in Hkey as [Hkey | Hkey];
          [injection Hkey as -> ->; vm_compute; reflexivity|]).
  by apply not_elem_of_nil in Hkey.
Qed.

(** X14: [addResultType] refuses a key that is a result type already and
    changes nothing; for a new key it adds the label and a list of zeroed
    counters to every dictionary of [_results], so that every result type
    keeps its counters; the results of a running campaign are not
    touched. *)
Theorem addResultType_keeps_counters_ready (key label : string)
    (p : CSProfiler) :
  counters_ready p ->
  (is_Some (result_types p !! key) ->
   addResultType key label p =
     (Raise (Exn KeyError
        ("addResultType: Result type '" +:+ key
         +:+ "' already exists in result_types.")), p)) /\
  (result_types p !! key = None ->
   exists p',
     addResultType key label p = (Ok tt, p') /\
     result_types p' = <[key := label]> (result_types p) /\
     counters_ready p' /\
     length (_results p') = length (_results p) /\
     results p' = results p).
Proof.
  intros Hready. unfold addResultType, bind, get, throw, modify. split.
  - intros Hsome. by rewrite bool_decide_eq_true_2.
  - intros Hnone.
    rewrite bool_decide_eq_false_2 by (rewrite Hnone; by intros [? ?]).
    eexists. split; [reflexivity|]. simpl.
    split; [done|]. split; [|split; [by rewrite length_fmap | done]].
    intros key' res' Hkey' Hres'. simpl in *.
    apply list_elem_of_fmap in Hres' as (res & -> & Hres).
    change (zero_counters (set_result_types _ _ p)) with (zero_counters p).
    destruct (decide ("num_" +:+ key = "num_" +:+ key')) as [Heq | Hne].
    + rewrite Heq. apply lookup_insert_eq.
    + rewrite lookup_insert_ne by done.
      apply Hready; [|done].
      rewrite lookup_insert_ne in Hkey'; [done|]. by intros ->.
Qed.


(** The loop of [reset_target]: only reset pulses reach the hardware, at
    most [n] of them. *)
Lemma reset_target_loop_pulses (n : nat) (w w' : World) (r : result bool) :
  reset_target_loop n w = (r, w') ->
  exists k,
    k <= n /\
    w' = mk_World (trace w ++ replicate k CwResetTarget) (faults w)
           (reset_seen w) (exec w) /\
    match r with
    | Ok true => 1 <= k /\ reset_seen w (trace w') = true
    | Ok false =>
        k = n /\
        forall j, 1 <= j <= n ->
          reset_seen w (trace w ++ replicate j CwResetTarget) = false
    | Raise e =>
        1 <= k /\
        faults w (trace w ++ replicate (k - 1) CwResetTarget) CwResetTarget
        = Some e
    end.
Proof.
  revert w. induction n as [|n IH]; intros w; simpl.
  - intros [= <- <-]. exists 0. split; [done|]. simpl.
    rewrite app_nil_r. split; [by destruct w|]. split; [done|]. lia.
  - unfold bind, hw, get.
    destruct (faults w (trace w) CwResetTarget) as [e|] eqn:Hfault.
    + intros [= <- <-]. exists 1. split; [lia|]. split; [done|].
      simpl. rewrite app_nil_r. split; [lia | done].
    + simpl.
      destruct (reset_seen w (trace w ++ [CwResetTarget])) eqn:Hseen.
      * intros [= <- <-]. exists 1. split; [lia|]. split; [done|].
        split; [lia|]. exact Hseen.
      * intros Hrest. apply IH in Hrest as (k & Hk & -> & Hr).
        simpl in *. exists (S k). split; [lia|].
        split; [by rewrite <- app_assoc|].
        destruct r as [[|]|e].
        -- destruct Hr as [Hk1 Hr]. split; [lia|].
           exact Hr.
        -- destruct Hr as [-> Hr]. split; [done|].
           intros j Hj. destruct j as [|j]; [lia|].
           destruct j as [|j]; [exact Hseen|].
           specialize (Hr (S j)). rewrite <- app_assoc in Hr.
           apply Hr. lia.
        -- destruct Hr as [Hk1 Hr]. split; [lia|].
           rewrite <- app_assoc in Hr.
           replace (S k - 1) with (S (k - 1)) by lia. exact Hr.
Qed.

(** X16: [reset_target] does nothing but pulse the reset line, at most
    [retries] times.  It returns 0 after the first pulse that the target
    answers; it raises [ResetTimeoutError] after exactly [retries]
    unanswered pulses, or what the hardware raised on the last pulse. *)
Theorem reset_target_pulses (retries : nat) (w w' : World) (r : result Z) :
  reset_target retries w = (r, w') ->
  exists k,
    k <= retries /\
    w' = mk_World (trace w ++ replicate k CwResetTarget) (faults w)
           (reset_seen w) (exec w) /\
    match r with
    | Ok z => z = 0%Z /\ 1 <= k /\ reset_seen w (trace w') = true
    | Raise e =>
        (k = retries /\
         e = Exn ResetTimeoutError
               ("Failed to reset target after " +:+ pretty retries
                +:+ " tries!") /\
         forall j, 1 <= j <= retries ->
           reset_seen w (trace w ++ replicate j CwResetTarget) = false)
        \/
        (1 <= k /\
         faults w (trace w ++ replicate (k - 1) CwResetTarget) CwResetTarget
         = Some e)
    end.
Proof.
  unfold reset_target, bind.
  destruct (reset_target_loop retries w) as [[seen|e] w1] eqn:Hloop.
  - apply reset_target_loop_pulses in Hloop as (k & Hk & -> & Hr).
    destruct seen; unfold ret, throw; intros [= <- <-];
      exists k; (split; [done|]); (split; [done|]).
    + by destruct Hr.
    + left. by destruct Hr.
  - apply reset_target_loop_pulses in Hloop as (k & Hk & -> & Hr).
    intros [= <- <-]. exists k. split; [done|]. split; [done|]. by right.
Qed.

End ResultTypeFacts.

Section ProfilerSerialFacts.

Import TargetSerial CSProfiler.
Context {D : Type} `{!SerialDriver D}.

Lemma type_convert_cmd_byte (cmd : cmd_arg) (c : N) :
  type_convert_cmd cmd = Ok c ->
  (c < 256)%N /\ type_convert_cmd (CmdInt (Z.of_N c)) = Ok c.
Proof.
  intros Hconv.
  assert (Hint : forall z, type_convert_cmd (CmdInt z) = Ok c ->
            (c < 256)%N /\ type_convert_cmd (CmdInt (Z.of_N c)) = Ok c).
  { intros z. unfold type_convert_cmd.
    destruct (0 <=? z)%Z eqn:Hlo, (z <=? 255)%Z eqn:Hhi; simpl; try done.
    apply Z.leb_le in Hlo, Hhi. intros [= <-]. split; [lia|].
    rewrite Z2N.id by done.
    by rewrite (proj2 (Z.leb_le 0 z) Hlo), (proj2 (Z.leb_le z 255) Hhi). }
  destruct cmd as [z | [|a s] | ty]; try done.
  - by apply (Hint z).
  - by apply (Hint (Z.of_N (Ascii.N_of_ascii a))).
Qed.

(** X17: [CSProfiler.send_packet] sends registered commands only: a
    command that is not in [valid_commands] raises [ValueError] and nothing
    reaches the serial driver; a registered one goes to
    [TargetSerial.send_packet], which for no data writes the command and
    the terminator. *)
Theorem profiler_send_packet_checks_registry (p : CSProfiler)
    (cmd : cmd_arg) (data : option data_arg) (c : N) (d : D) :
  type_convert_cmd cmd = Ok c ->
  (c ∉ valid_commands p ->
   CSProfilerMore.send_packet p cmd data d =
     (raise ValueError
        ("sendPacket: Command: `" +:+ pretty c
         +:+ "` is not a valid command, add it using addSimpleSerialCommand()"),
      d)) /\
  (c ∈ valid_commands p ->
   CSProfilerMore.send_packet p cmd data d =
     TargetSerial.send_packet (CmdInt (Z.of_N c)) data 0 d /\
   CSProfilerMore.send_packet p cmd None d = ser_write [c; 0%N] 0 d).
Proof.
  intros Hconv. unfold CSProfilerMore.send_packet, bind, lift_result.
  rewrite Hconv. split.
  - intros Hout. by rewrite bool_decide_eq_false_2.
  - intros Hin. rewrite !bool_decide_eq_true_2 by done. simpl negb.
    cbv beta iota. split; [done|]. cbn [negb].
    apply type_convert_cmd_byte in Hconv as [Hc Hsame].
    rewrite (send_packet_signal (Z.of_N c) 0 None d); [|lia|by left].
    by rewrite N2Z.id.
Qed.

Lemma list_remove_subseteq (x c : N) (l : list N) :
  c ∈ list_remove x l -> c ∈ l.
Proof.
  induction l as [|y l IH]; simpl; [done|].
  destruct (decide (y = x)).
  - by right.
  - intros [-> | Hin]%elem_of_cons; [left | right; by apply IH].
Qed.

(** X18: a registry without the command 0 stays without it through
    [addSimpleSerialCommand], whatever the packet and whether it succeeds,
    and [CSProfiler.send_packet] then refuses command 0, writing
    nothing. *)
Theorem command_zero_never_registered (packet : SimpleSerialPacket)
    (overwrite : bool) (p p' : CSProfiler) (r : result unit) :
  (0%N ∉ valid_commands p) ->
  addSimpleSerialCommand packet overwrite p = (r, p') ->
  (0%N ∉ valid_commands p') /\
  forall (data : option data_arg) (d : D),
    exists e, CSProfilerMore.send_packet p' (CmdInt 0) data d = (Raise e, d).
Proof.
  intros Hzero Hadd.
  assert (Hzero' : (0%N ∉ valid_commands p')).
  { revert Hadd. unfold addSimpleSerialCommand.
    destruct (decide (command packet = 0%N)) as [Hc | Hc].
    { by intros [= <- <-]. }
    unfold bind, get, throw, modify, ret.
    destruct (bool_decide (command packet ∈ valid_commands p)).
    - destruct overwrite; simpl.
      + intros [= <- <-]. simpl.
        intros [Hin | Hin]%elem_of_app.
        * by apply list_remove_subseteq in Hin.
        * apply list_elem_of_singleton in Hin. done.
      + by intros [= <- <-].
    - intros [= <- <-]. simpl.
      intros [Hin | Hin]%elem_of_app; [done|].
      apply list_elem_of_singleton in Hin. done. }
  split; [done|]. intros data d. eexists.
  unfold CSProfilerMore.send_packet, bind, lift_result. simpl.
  by rewrite bool_decide_eq_false_2.
Qed.

End ProfilerSerialFacts.

Section ExtradataFacts.

Import CSProfiler.

Lemma entries_app (l1 l2 : list pyitem) :
  entries (l1 ++ l2) = entries l1 ++ entries l2.
Proof. unfold entries. apply bind_app. Qed.

(** X19: recording an extra data adds it, with the position, at the end of
    what the category holds and changes no other key.  When the last item
    of the category is a group of the same position, that group takes the
    extra data and no group is added; in every other case a new group of
    the position, holding the extra data alone, is appended.  The
    statements fail only if the key is bound to an integer. *)
Theorem record_extradata_appends_entry (result_category : string)
    (position_index : nat) (x : extradata)
    (config_results : gmap string pyval) :
  (forall z, config_results !! result_category <> Some (PInt z)) ->
  exists l',
    record_extradata result_category position_index x config_results
      = Ok (<[result_category := PList l']> config_results) /\
    entries l' =
      entries (items config_results result_category)
      ++ [(position_index, x)] /\
    (forall l0 data,
       items config_results result_category
       = l0 ++ [IGroup position_index data] ->
       l' = l0 ++ [IGroup position_index (data ++ [x])]) /\
    ((forall l0 data,
        items config_results result_category
        <> l0 ++ [IGroup position_index data]) ->
     l' = items config_results result_category
          ++ [IGroup position_index [x]]).
Proof.
  intros Hlist. unfold record_extradata, items.
  destruct (config_results !! result_category) as [[z|l]|] eqn:Hkey.
  - by destruct (Hlist z).
  - rewrite Hkey.
    destruct l as [|item0 l0] using rev_ind.
    + eexists. split; [reflexivity|]. simpl. split; [done|].
      split; [|done]. intros l0 data Heq. by destruct l0.
    + clear IHl0. rewrite last_snoc.
      replace (take (length (l0 ++ [item0]) - 1) (l0 ++ [item0])) with l0
        by (rewrite length_app; simpl;
            replace (length l0 + 1 - 1) with (length l0) by lia;
            by rewrite take_app_length).
      destruct item0 as [z | p data_array].
      * eexists. split; [reflexivity|]. rewrite entries_app.
        split; [done|]. split; [|done].
        intros l1 data Heq. apply app_inj_tail in Heq as [_ Heq]. done.
      * destruct (decide (p = position_index)) as [-> | Hother].
        -- eexists. split; [reflexivity|]. rewrite !entries_app.
           unfold entries at 2 4. simpl. rewrite !app_nil_r.
           rewrite fmap_app, <- app_assoc. split; [done|].
           split.
           ++ intros l1 data Heq.
              apply app_inj_tail in Heq as [-> [= ->]]. done.
           ++ intros Hnone. by destruct (Hnone l0 data_array).
        -- eexists. split; [reflexivity|]. rewrite entries_app.
           split; [done|]. split; [|done].
           intros l1 data Heq. apply app_inj_tail in Heq as [_ [= ->]]. done.
  - rewrite lookup_insert_eq. simpl.
    eexists. split; [by rewrite insert_insert_eq|]. split; [done|].
    split; [|done]. intros l0 data Heq. by destruct l0.
Qed.

End ExtradataFacts.

(** * The loop over the executions *)

Section HandlerFacts.

Import CSProfiler.

Lemma extends_refl (w : World) : extends w w.
Proof. exists []. rewrite app_nil_r. by destruct w. Qed.

Lemma extends_trans (w1 w2 w3 : World) :
  extends w1 w2 -> extends w2 w3 -> extends w1 w3.
Proof.
  intros [tr1 ->] [tr2 ->]. exists (tr1 ++ tr2). simpl.
  by rewrite app_assoc.
Qed.

Lemma quiet_step_refl (fr : frame) : quiet_step fr fr.
Proof. repeat split; try done. apply extends_refl. Qed.

Lemma quiet_step_trans (fr1 fr2 fr3 : frame) :
  quiet_step fr1 fr2 -> quiet_step fr2 fr3 -> quiet_step fr1 fr3.
Proof.
  intros (Hw1 & Hc1 & Hr1 & Ht1 & Hl1 & Hi1) (Hw2 & Hc2 & Hr2 & Ht2 & Hl2 & Hi2).
  repeat split; try congruence; try lia.
  by eapply extends_trans.
Qed.

Lemma quiet_ret {A} (a : A) : quiet (ret a).
Proof. intros fr r fr' [= <- <-]. apply quiet_step_refl. Qed.

Lemma quiet_throw {A} (e : exn) : quiet (@throw frame A e).
Proof. intros fr r fr' [= <- <-]. apply quiet_step_refl. Qed.


Lemma quiet_bind {A B} (m : M frame A) (k : A -> M frame B) :
  quiet m -> (forall a, quiet (k a)) -> quiet (bind m k).
Proof.
  intros Hm Hk fr r fr'. unfold bind.
  destruct (m fr) as [[a|e] fr1] eqn:Hrun.
  - intros Hka. eapply quiet_step_trans; [by eapply Hm | by eapply Hk].
  - intros [= <- <-]. by eapply Hm.
Qed.

Lemma quiet_try_except {A} (m : M frame A) (h : exn -> M frame A) :
  quiet m -> (forall e, quiet (h e)) -> quiet (try_except m h).
Proof.
  intros Hm Hh fr r fr'. unfold try_except.
  destruct (m fr) as [[a|e] fr1] eqn:Hrun.
  - intros [= <- <-]. by eapply Hm.
  - intros Hhe. eapply quiet_step_trans; [by eapply Hm | by eapply Hh].
Qed.

(** The requests to the hardware. *)
Lemma hw_extends (a : hw_action) (w : World) (r : result unit)
    (w' : World) :
  hw a w = (r, w') -> extends w w'.
Proof.
  unfold hw. destruct (faults w (trace w) a); intros [= <- <-]; by exists [a].
Qed.

Lemma reset_target_loop_extends (n : nat) (w : World) (r : result bool)
    (w' : World) :
  reset_target_loop n w = (r, w') -> extends w w'.
Proof.
  revert w r w'. induction n as [|n IH]; intros w r w'; simpl.
  - intros [= <- <-]. apply extends_refl.
  - unfold bind. destruct (hw CwResetTarget w) as [[[]|e] w1] eqn:Hhw.
    + apply hw_extends in Hhw. unfold get.
      destruct (reset_seen w1 (trace w1)).
      * intros [= <- <-]. done.
      * intros Hrest. eapply extends_trans; [done | by eapply IH].
    + intros [= <- <-]. by eapply hw_extends.
Qed.

Lemma reset_target_extends (n : nat) (w : World) (r : result Z)
    (w' : World) :
  reset_target n w = (r, w') -> extends w w'.
Proof.
  unfold reset_target, bind.
  destruct (reset_target_loop n w) as [[[|]|e] w1] eqn:Hloop;
    intros [= <- <-]; by eapply reset_target_loop_extends.
Qed.

Lemma configure_chipshouter_extends (g : GlitchConfig) (w : World)
    (r : result unit) (w' : World) :
  configure_chipshouter g w = (r, w') -> extends w w'.
Proof.
  unfold configure_chipshouter, bind.
  destruct (hw (CsSetVoltage (voltage g)) w) as [[[]|e] w1] eqn:Hhw.
  - intros Hrest. eapply extends_trans; by eapply hw_extends.
  - intros [= <- <-]. by eapply hw_extends.
Qed.

Lemma quiet_on_world {A} (m : M World A) :
  (forall w r w', m w = (r, w') -> extends w w') ->
  quiet (on_self (on_world m)).
Proof.
  intros Hm fr r fr'. unfold on_self, on_world, zoom.
  destruct (m (world (self fr))) as [r0 w1] eqn:Hrun.
  intros [= <- <-]. repeat split; simpl; try done; try lia. by eapply Hm.
Qed.

Lemma quiet_on_config_results (ci : nat)
    (f : gmap string pyval -> result (gmap string pyval)) :
  quiet (on_config_results ci f).
Proof.
  intros fr r fr'. unfold on_config_results.
  destruct (results (self fr) !! ci) as [cr|];
    [destruct (f cr)|]; intros [= <- <-];
    repeat split; simpl; try done; try lia; try apply extends_refl.
  by rewrite length_insert.
Qed.

Lemma quiet_next_execution :
  quiet (bind get (fun fr : frame =>
           modify (set_execution_index (execution_index fr + 1)))).
Proof.
  intros fr r fr' [= <- <-]. repeat split; simpl; try done; try lia.
  apply extends_refl.
Qed.

Lemma quiet_count (key : string) (ci : nat) :
  quiet
    (bind (on_self (on_world (reset_target 3)))
       (fun _ => bind (on_config_results ci (incr_entry key))
          (fun _ => bind get (fun fr : frame =>
             modify (set_execution_index (execution_index fr + 1)))))).
Proof.
  apply quiet_bind; [apply quiet_on_world, reset_target_extends|].
  intros _. apply quiet_bind; [apply quiet_on_config_results|].
  intros _. apply quiet_next_execution.
Qed.

(** The two recoveries of the handler. *)
Lemma quiet_tier1 (g : GlitchConfig) :
  quiet
    (bind (on_self (on_world (hw CsPowerCycleUsb)))
       (fun _ => bind (on_self (on_world (hw SerialFlush)))
          (fun _ => bind (on_self (on_world (reset_target 3)))
             (fun _ => bind (on_self (on_world (configure_chipshouter g)))
                (fun _ => ret Continue))))).
Proof.
  repeat (apply quiet_bind; [apply quiet_on_world|intros _]);
    try apply quiet_ret; intros w r w'.
  - apply hw_extends.
  - apply hw_extends.
  - apply reset_target_extends.
  - apply configure_chipshouter_extends.
Qed.

Lemma quiet_tier2 (ci : nat) :
  quiet
    (bind (on_self (on_world (hw CsDisarm)))
       (fun _ => bind (on_self (on_world power_cycle_target))
          (fun _ => bind (on_self (on_world (hw SerialConnect)))
             (fun _ => bind
                (try_except
                   (bind (on_self (on_world (reset_target 3)))
                      (fun _ => bind (on_config_results ci
                                        (incr_entry "soft_bricked"))
                         (fun _ => bind get (fun fr : frame =>
                            modify (set_execution_index
                                      (execution_index fr + 1))))))
                   (fun _ =>
                    bind (on_self (on_world (hw (CwFlash
                      "./target-firmware/build/emfi-profiler-CW308_STM32F4.hex"))))
                      (fun _ => bind (on_self (on_world (reset_target 3)))
                         (fun _ => bind (on_config_results ci
                                           (incr_entry "hard_bricked"))
                            (fun _ => bind get (fun fr : frame =>
                               modify (set_execution_index
                                         (execution_index fr + 1))))))))
                (fun _ => ret Continue))))).
Proof.
  repeat (apply quiet_bind; [apply quiet_on_world; intros w r w'; apply hw_extends
                            |intros _]).
  apply quiet_bind; [|intros _; apply quiet_ret].
  apply quiet_try_except; [apply quiet_count|].
  intros _. apply quiet_bind;
    [apply quiet_on_world; intros w r w'; apply hw_extends|].
  intros _. apply quiet_count.
Qed.

(** The handler, after the error is logged and the retry counted. *)
Lemma on_error_steps (position_index config_index : nat)
    (glitch_config : GlitchConfig) (e : exn) (fr fr' : frame)
    (r : result loop_ctl) :
  on_error position_index config_index glitch_config e fr = (r, fr') ->
  exists fr1,
    quiet_step fr1 fr' /\
    self fr1 =
      set_catched_errors
        (catched_errors (self fr)
           ++ [(position_index, str_exn (underlying e))]) (self fr) /\
    execution_index fr1 = execution_index fr /\
    (if decide (retry_count fr < 3)
     then retry_count fr1 = S (retry_count fr) /\ r <> Ok Break
     else retry_count fr1 = retry_count fr /\ r <> Ok Continue).
Proof.
  unfold on_error. fold (underlying e).
  set (logged := set_self (set_catched_errors
                   (catched_errors (self fr)
                      ++ [(position_index, str_exn (underlying e))])
                   (self fr)) fr).
  unfold bind at 1. unfold on_self at 1, zoom at 1, modify at 1.
  cbv beta iota zeta. fold logged.
  unfold bind at 1, get at 1. cbv beta iota.
  change (retry_count logged) with (retry_count fr).
  destruct (decide (retry_count fr < 3)) as [Hlt | Hge].
  - rewrite bool_decide_eq_true_2 by done.
    unfold bind at 1, modify at 1. cbv beta iota.
    set (counted := set_retry_count (retry_count fr + 1) logged).
    intros Hrun. exists counted.
    split; [|split; [done|split; [done|split; [simpl; lia|]]]].
    + destruct (bool_decide (str_exn (underlying e) ∈ tier1_errors)).
      { by eapply quiet_tier1. }
      destruct (bool_decide (str_exn (underlying e) ∈ tier2_errors)).
      { by eapply quiet_tier2. }
      by eapply quiet_throw.
    + intros ->.
      destruct (bool_decide (str_exn (underlying e) ∈ tier1_errors)).
      { unfold bind in Hrun.
        repeat (match type of Hrun with
                | context [match ?m ?s with _ => _ end] =>
                    destruct (m s) as [[?|?] ?]
                end; try discriminate Hrun). }
      destruct (bool_decide (str_exn (underlying e) ∈ tier2_errors)).
      { unfold bind in Hrun.
        repeat (match type of Hrun with
                | context [match ?m ?s with _ => _ end] =>
                    destruct (m s) as [[?|?] ?]
                end; try discriminate Hrun). }
      discriminate Hrun.
  - rewrite bool_decide_eq_false_2 by done.
    intros Hrun. exists logged.
    split; [|split; [done|split; [done|split; [done|]]]].
    + revert Hrun. apply quiet_bind; [apply quiet_on_config_results|].
      intros _. apply quiet_ret.
    + intros ->. unfold bind in Hrun.
      destruct (on_config_results _ _ logged) as [[?|?] ?];
        discriminate Hrun.
Qed.

End HandlerFacts.

Section LoopFacts.

Import CSProfiler.

(** X20: the error handler logs every exception once, with the position
    and the text of the underlying exception; it counts a retry as long as
    fewer than three were counted, and only then may ask for another turn;
    with the budget spent it never does, and the execution index never
    goes back. *)
Theorem on_error_logs_once (position_index config_index : nat)
    (glitch_config : GlitchConfig) (e : exn) (fr fr' : frame)
    (r : result loop_ctl) :
  on_error position_index config_index glitch_config e fr = (r, fr') ->
  catched_errors (self fr') =
    catched_errors (self fr) ++ [(position_index, str_exn (underlying e))] /\
  retry_count fr' =
    (if decide (retry_count fr < 3) then S (retry_count fr)
     else retry_count fr) /\
  (execution_index fr <= execution_index fr')%Z /\
  (r = Ok Continue -> retry_count fr < 3) /\
  (r = Ok Break -> 3 <= retry_count fr).
Proof.
  intros Hrun. apply on_error_steps in Hrun
    as (fr1 & (_ & Hlog & Hretry & _ & _ & Hidx) & Hself & Hidx1 & Hbudget).
  rewrite Hlog, Hself, Hretry. rewrite Hidx1 in Hidx.
  split; [done|].
  destruct (decide (retry_count fr < 3)) as [Hlt | Hge];
    destruct Hbudget as [Hcount Hctl].
  - repeat split; try done; try lia; by intros ->.
  - repeat split; try done; try lia; by intros ->.
Qed.






End LoopFacts.

Section PositionFacts.

Import CSProfiler Samples.





End PositionFacts.

Section NominalRun.

Import CSProfiler Samples.

Context (position_index config_index : nat) (glitch_config : GlitchConfig)
  (category label : string).

(** One execution that returns [category] with no extra data. *)
Lemma attempt_counts (fr : frame) (config_results : gmap string pyval)
    (l : list pyitem) (k : Z) :
  exec (world (self fr)) (trace (world (self fr))) position_index
    config_index (execution_index fr)
    = Returns (Tuple3 (execution_index fr + 1) category None) ->
  result_types (self fr) !! category = Some label ->
  results (self fr) !! config_index = Some config_results ->
  config_results !! ("num_" +:+ category) = Some (PList l) ->
  l !! position_index = Some (IInt k) ->
  attempt position_index config_index fr =
    (Ok tt,
     set_self
       (set_results
          (<[config_index :=
               <["num_" +:+ category :=
                   PList (<[position_index := IInt (k + 1)]> l)]>
                 config_results]> (results (self fr)))
          (set_world
             (log (TestExecution position_index config_index
                     (execution_index fr)) (world (self fr)))
             (self fr)))
       (set_execution_index (execution_index fr + 1) fr)).
Proof.
  intros Hexec Htype Hres Hkey Hpos. unfold attempt.
  unfold bind, get, on_self, zoom, test_execution, on_world, zoom, modify.
  rewrite Hexec. simpl. rewrite Htype. unfold ret.
  unfold on_config_results. simpl. rewrite Hres.
  unfold incr_counter. rewrite Hkey, Hpos. reflexivity.
Qed.

Lemma executions_step (first : Z) (count : nat) :
  executions position_index config_index first (S count)
  = TestExecution position_index config_index first
    :: executions position_index config_index (first + 1) count.
Proof.
  unfold executions. simpl. rewrite Z.add_0_r. f_equal.
  rewrite <- fmap_S_seq, <- list_fmap_compose. apply list_fmap_ext.
  intros _ j _. simpl. f_equal. lia.
Qed.

(** X22: a run without errors.  When every execution returns the next
    index and one category with no extra data, the loop ends after as many
    turns as executions were left, the counter of that category at that
    position has risen by their number with the results otherwise as they
    were, the executions reached the hardware in order, and no retry was
    counted. *)
Theorem while_executions_counts (fuel : nat) (fr : frame)
    (config_results : gmap string pyval) (l : list pyitem) (k : Z) :
  (forall tr i,
     exec (world (self fr)) tr position_index config_index i
     = Returns (Tuple3 (i + 1) category None)) ->
  result_types (self fr) !! category = Some label ->
  results (self fr) !! config_index = Some config_results ->
  config_results !! ("num_" +:+ category) = Some (PList l) ->
  l !! position_index = Some (IInt k) ->
  (execution_index fr <= num_executions glitch_config)%Z ->
  Z.to_nat (num_executions glitch_config - execution_index fr) <= fuel ->
  exists fr',
    while_executions fuel position_index config_index glitch_config fr
      = Some (Ok tt, fr') /\
    execution_index fr' = num_executions glitch_config /\
    retry_count fr' = retry_count fr /\
    results (self fr') =
      <[config_index :=
          <["num_" +:+ category :=
              PList (<[position_index :=
                         IInt (k + (num_executions glitch_config
                                    - execution_index fr))]> l)]>
            config_results]> (results (self fr)) /\
    trace (world (self fr')) =
      trace (world (self fr))
      ++ executions position_index config_index (execution_index fr)
           (Z.to_nat (num_executions glitch_config - execution_index fr)).
Proof.
  revert fr config_results l k.
  induction fuel as [|fuel IH];
    intros fr cr l k Hexec Htype Hres Hkey Hpos Hle Hfuel.
  - exists fr. simpl. rewrite bool_decide_eq_false_2 by lia.
    replace (num_executions glitch_config - execution_index fr)%Z
      with 0%Z by lia.
    rewrite Z.add_0_r. simpl. rewrite app_nil_r.
    repeat split; try done; try lia.
    rewrite (list_insert_id l position_index (IInt k)) by done.
    rewrite insert_id by done. by rewrite list_insert_id.
  - simpl.
    destruct (bool_decide (execution_index fr < num_executions glitch_config)%Z)
      eqn:Hcond.
    + apply bool_decide_eq_true in Hcond.
      unfold iteration, try_except, bind.
      rewrite (attempt_counts fr cr l k (Hexec _ _) Htype Hres Hkey Hpos).
      unfold ret.
      set (fr1 := set_self _ _).
      destruct (IH fr1
                  (<["num_" +:+ category :=
                       PList (<[position_index := IInt (k + 1)]> l)]> cr)
                  (<[position_index := IInt (k + 1)]> l) (k + 1)%Z)
        as (fr' & Hrun & Hidx & Hretry & Hresults & Htrace).
      * intros tr i. apply Hexec.
      * done.
      * simpl. apply list_lookup_insert_eq. by eapply lookup_lt_Some.
      * apply lookup_insert_eq.
      * apply list_lookup_insert_eq. by eapply lookup_lt_Some.
      * unfold fr1. simpl. lia.
      * unfold fr1. simpl. lia.
      * exists fr'. split; [done|]. split; [done|]. split; [done|].
        split.
        -- rewrite Hresults. simpl.
           rewrite list_insert_insert_eq, insert_insert_eq,
             list_insert_insert_eq.
           do 5 f_equal. lia.
        -- rewrite Htrace. simpl.
           replace (Z.to_nat (num_executions glitch_config
                              - execution_index fr))
             with (S (Z.to_nat (num_executions glitch_config
                                - (execution_index fr + 1)))) by lia.
           rewrite executions_step. by rewrite <- app_assoc.
    + apply bool_decide_eq_false in Hcond. exists fr.
      replace (num_executions glitch_config - execution_index fr)%Z
        with 0%Z by lia.
      rewrite Z.add_0_r. simpl. rewrite app_nil_r.
      repeat split; try done; try lia.
      rewrite (list_insert_id l position_index (IInt k)) by done.
      rewrite insert_id by done. by rewrite list_insert_id.
Qed.

End NominalRun.

(** * The files of results *)

Section StorageFacts.

Import CSProfilerMore.
Context {C : Type}.

Lemma find_counter_first_free (files : gmap string C) (free : nat)
    (fuel counter : nat) :
  files !! complete_file free = None ->
  files !! partial_file free = None ->
  counter <= free ->
  free - counter <= fuel ->
  exists c,
    find_counter fuel files counter = Some c /\
    counter <= c <= free /\
    files !! complete_file c = None /\
    files !! partial_file c = None /\
    forall j, counter <= j < c ->
      is_Some (files !! complete_file j) \/ is_Some (files !! partial_file j).
Proof.
  intros Hc Hp. revert counter.
  induction fuel as [|fuel IH]; intros counter Hle Hfuel.
  - assert (counter = free) as -> by lia. exists free. simpl.
    unfold path_exists.
    rewrite !bool_decide_eq_false_2
      by (rewrite ?Hc, ?Hp; by intros [? ?]).
    repeat split; try done. intros j Hj. lia.
  - simpl. unfold path_exists.
    destruct (decide (is_Some (files !! complete_file counter)))
      as [Hfull | Hnone].
    + rewrite (bool_decide_eq_true_2 _ Hfull). simpl.
      assert (counter <> free).
      { intros ->. rewrite Hc in Hfull. by destruct Hfull. }
      destruct (IH (S counter)) as (c & Hrun & Hrange & Hc' & Hp' & Hbelow);
        [lia | lia |].
      exists c. repeat split; try done; try lia.
      intros j Hj. destruct (decide (j = counter)) as [-> | Hne];
        [by left | apply Hbelow; lia].
    + rewrite (bool_decide_eq_false_2 _ Hnone). simpl.
      destruct (decide (is_Some (files !! partial_file counter)))
        as [Hfull | Hnone'].
      * rewrite (bool_decide_eq_true_2 _ Hfull).
        assert (counter <> free).
        { intros ->. rewrite Hp in Hfull. by destruct Hfull. }
        destruct (IH (S counter)) as (c & Hrun & Hrange & Hc' & Hp' & Hbelow);
          [lia | lia |].
        exists c. repeat split; try done; try lia.
        intros j Hj. destruct (decide (j = counter)) as [-> | Hne];
          [by right | apply Hbelow; lia].
      * rewrite (bool_decide_eq_false_2 _ Hnone').
        exists counter. repeat split; try done; try lia;
          try (by apply eq_None_not_Some).
Qed.

Lemma opened_file_cases (counter : nat) (partial : bool) :
  opened_file counter partial =
    if partial then partial_file counter else complete_file counter.
Proof.
  unfold opened_file, partial_file, complete_file.
  destruct partial; [|done].
  by f_equal.
Qed.

(** X23: [store_results] writes over no file: when some counter is free,
    the search ends at the smallest counter for which neither the complete
    nor the partial file exists (neither exists at the counter chosen, and
    one of them exists at every smaller one), the file opened is one of
    those two, and every file that was there is there unchanged. *)
Theorem store_results_keeps_files (files : gmap string C) (free : nat)
    (log_json : C) (partial : bool) :
  files !! complete_file free = None ->
  files !! partial_file free = None ->
  exists counter,
    store_results free log_json partial files
      = Some (<[opened_file counter partial := log_json]> files) /\
    counter <= free /\
    files !! complete_file counter = None /\
    files !! partial_file counter = None /\
    opened_file counter partial =
      (if partial then partial_file counter else complete_file counter) /\
    (forall j, j < counter ->
       is_Some (files !! complete_file j) \/
       is_Some (files !! partial_file j)) /\
    (forall path text, files !! path = Some text ->
       <[opened_file counter partial := log_json]> files !! path = Some text).
Proof.
  intros Hc Hp.
  destruct (find_counter_first_free files free free 0 Hc Hp)
    as (c & Hrun & Hrange & Hc' & Hp' & Hbelow); [lia | lia |].
  exists c. unfold store_results. rewrite Hrun.
  assert (Hnew : files !! opened_file c partial = None).
  { rewrite opened_file_cases. by destruct partial. }
  repeat split; try done; try lia.
  - apply opened_file_cases.
  - intros j Hj. apply Hbelow. lia.
  - intros path text Hpath. rewrite lookup_insert_ne; [done|].
    intros <-. by rewrite Hnew in Hpath.
Qed.

End StorageFacts.

Section JsonFacts.

Import CSProfilerMore.



End JsonFacts.

(** * The properties above at sample inputs *)

Section SampleFacts.

Import Codec TargetSerial TargetSerialMore CSProfiler Samples.

(** X3, at a sample input. *)
Lemma cobs_stuffed_length_witness :
  length [17; 0; 34]%N + 1 <= length (_cobs_stuff_data [17; 0; 34]%N 0) /\
  length (_cobs_stuff_data [17; 0; 34]%N 0)
    <= length [17; 0; 34]%N + 1 + length [17; 0; 34]%N / 254.
Proof. apply (cobs_stuffed_length [17; 0; 34]%N). discriminate. Defined.

(** X4, at a sample input. *)
Lemma cobs_unstuffed_shorter_witness :
  ([3; 17; 228]%N = [] /\ [17; 228]%N = []) \/
  length [17; 228]%N < length [3; 17; 228]%N.
Proof.
  apply (cobs_unstuffed_shorter [3; 17; 228]%N [17; 228]%N). reflexivity.
Defined.

(** X6, at a sample input. *)
Lemma calc_crc_detects_byte_change_witness :
  _calc_crc ([1%N] ++ 3%N :: [4%N]) <> _calc_crc ([1%N] ++ 2%N :: [4%N]).
Proof.
  apply (calc_crc_detects_byte_change [1%N] [4%N] 2%N 3%N).
  - repeat constructor.
  - reflexivity.
  - discriminate.
Defined.

(** X11, at a sample input. *)
Lemma type_convert_data_is_bytes_witness :
  Forall (fun x => (x < 256)%N) [115%N] /\
  (truthy (DStr "s") = true -> [115%N] <> []).
Proof.
  apply (type_convert_data_is_bytes (DStr "s") [115%N]).
  - reflexivity.
  - intros raw. discriminate.
Defined.

(** X9, at a sample input. *)
Lemma read_until_stops_at_first_witness :
  endswith (take 1 [1; 0]%N) [0%N] = false.
Proof.
  apply (read_until_stops_at_first [0%N] 10 (mk_Wire [1; 0; 2; 0]%N [])
           (mk_Wire [2; 0]%N []) [1; 0]%N).
  - reflexivity.
  - simpl. lia.
Defined.

(** X10, at a sample input. *)
Lemma send_ack_takes_timeout_as_data_witness :
  send_ack (CmdInt 115) 250 (mk_Wire [] []) =
    (raise UnboundLocalError
       "cannot access local variable 'buf' where it is not associated with a value",
     mk_Wire [] []).
Proof.
  apply (proj1 (proj2 (send_ack_takes_timeout_as_data 115 250 (mk_Wire [] [])
                         ltac:(lia)))).
  lia.
Defined.

(** X12, at a sample input. *)
Lemma read_packet_receives_assembled_packet_witness :
  read_packet 10 (mk_Wire (assembled_packet 102 [17%N] ++ [101; 0]%N) []) =
    (Ok (102%N, Some [17%N]), mk_Wire [101; 0]%N []).
Proof.
  apply (proj2 (read_packet_receives_assembled_packet 102 [17%N] [101; 0]%N
                  [] 10 ltac:(discriminate) eq_refl)).
  - discriminate.
  - vm_compute. lia.
Defined.

(** X13, at a sample input. *)
Lemma wait_ack_awaits_signal_packet_witness :
  TargetSerialMore.wait_ack true (TargetSerialMore.AckInt 115) 100
    (mk_Wire [115; 0; 101; 0]%N []) =
    (Ok TargetSerialMore.OK, mk_Wire [101; 0]%N []).
Proof.
  rewrite (proj2 (wait_ack_awaits_signal_packet true 115 100
                    [115; 0; 101; 0]%N [] ltac:(lia))).
  reflexivity.
Defined.

(** X14, at a sample input. *)
Lemma addResultType_keeps_counters_ready_witness :
  exists p',
    CSProfilerMore.addResultType "timeouts" "Timeout occurred"
      (new [sample_config] 2 None quiet_world) = (Ok tt, p') /\
    result_types p' =
      <["timeouts" := "Timeout occurred"]>
        (result_types (new [sample_config] 2 None quiet_world)) /\
    counters_ready p' /\
    length (_results p') = 1 /\
    results p' = results (new [sample_config] 2 None quiet_world).
Proof.
  apply (proj2 (addResultType_keeps_counters_ready "timeouts"
                  "Timeout occurred" (new [sample_config] 2 None quiet_world)
                  (new_counters_ready [sample_config] 2 None quiet_world))).
  vm_compute. reflexivity.
Defined.


(** X16, at a sample input. *)
Lemma reset_target_pulses_witness :
  exists k,
    k <= 3 /\
    log CwResetTarget quiet_world =
      mk_World (trace quiet_world ++ replicate k CwResetTarget)
        (faults quiet_world) (reset_seen quiet_world) (exec quiet_world) /\
    (0 = 0)%Z /\ 1 <= k /\
    reset_seen quiet_world (trace (log CwResetTarget quiet_world)) = true.
Proof.
  apply (reset_target_pulses 3 quiet_world (log CwResetTarget quiet_world)
           (Ok 0%Z)).
  reflexivity.
Defined.

(** X17, at a sample input. *)
Lemma profiler_send_packet_checks_registry_witness :
  CSProfilerMore.send_packet (new [sample_config] 2 None quiet_world)
    (CmdStr "s") None (mk_Wire [] []) =
    (Ok tt, mk_Wire [] [[115; 0]%N]).
Proof.
  apply (proj2 (proj2 (profiler_send_packet_checks_registry
                         (new [sample_config] 2 None quiet_world)
                         (CmdStr "s") None 115 (mk_Wire [] []) eq_refl)
                  ltac:(simpl; left))).
Defined.

(** X18, at a sample input. *)
Lemma command_zero_never_registered_witness :
  (0%N ∉ valid_commands
     (snd (addSimpleSerialCommand (mk_packet 120 "x" HDefault) false
             (new [sample_config] 2 None quiet_world)))) /\
  forall (data : option data_arg) (d : Wire),
    exists e,
      CSProfilerMore.send_packet
        (snd (addSimpleSerialCommand (mk_packet 120 "x" HDefault) false
                (new [sample_config] 2 None quiet_world)))
        (CmdInt 0) data d = (Raise e, d).
Proof.
  apply (command_zero_never_registered (mk_packet 120 "x" HDefault) false
           (new [sample_config] 2 None quiet_world) _ (Ok tt)).
  - simpl. rewrite !elem_of_cons, elem_of_nil.
    intros [H | [H | [H | [H | []]]]]; discriminate H.
  - reflexivity.
Defined.

(** X20, at a sample input. *)
Lemma on_error_logs_once_witness :
  exists fr',
    on_error 0 0 sample_config (Exn Exception "No response from shouter.")
      {| self := new [sample_config] 2 None quiet_world;
         execution_index := 0; retry_count := 0 |}
    = (Ok Continue, fr') /\
    catched_errors (self fr') = [(0, "No response from shouter.")] /\
    retry_count fr' = 1.
Proof.
  eexists. split; [reflexivity|].
  destruct (on_error_logs_once 0 0 sample_config
              (Exn Exception "No response from shouter.")
              {| self := new [sample_config] 2 None quiet_world;
                 execution_index := 0; retry_count := 0 |} _ _ eq_refl)
    as (Hlog & Hretry & _).
  split; [exact Hlog | exact Hretry].
Defined.

(** X19, at a sample input. *)
Lemma record_extradata_appends_entry_witness :
  exists l',
    record_extradata "faults" 1 (EInt 7)
      {["faults" := PList [IGroup 0 [EInt 1]; IGroup 1 [EInt 3]]]}
    = Ok (<["faults" := PList l']>
            {["faults" := PList [IGroup 0 [EInt 1]; IGroup 1 [EInt 3]]]}) /\
    l' = [IGroup 0 [EInt 1]] ++ [IGroup 1 ([EInt 3] ++ [EInt 7])].
Proof.
  destruct (record_extradata_appends_entry "faults" 1 (EInt 7)
              {["faults" := PList [IGroup 0 [EInt 1]; IGroup 1 [EInt 3]]]})
    as (l' & Hrun & _ & Hmerge & _).
  - intros z. rewrite lookup_singleton_eq. discriminate.
  - exists l'. split; [exact Hrun|].
    apply (Hmerge [IGroup 0 [EInt 1]] [EInt 3]).
    unfold items. rewrite lookup_singleton_eq. reflexivity.
Defined.

(** X22, at a sample input. *)
Lemma while_executions_counts_witness :
  exists fr',
    while_executions 5 0 0 sample_config
      {| self := new [sample_config] 2 None quiet_world;
         execution_index := 0; retry_count := 0 |}
    = Some (Ok tt, fr') /\
    execution_index fr' = 5%Z /\
    counters (self fr') 0 "num_nofaults" = Some (PList [IInt 5; IInt 0]).
Proof.
  edestruct (while_executions_counts 0 0 sample_config "nofaults" "No Fault" 5
               {| self := new [sample_config] 2 None quiet_world;
                  execution_index := 0; retry_count := 0 |})
    as (fr' & Hrun & Hidx & _ & Hres & _).
  - intros tr i. reflexivity.
  - vm_compute. reflexivity.
  - simpl. reflexivity.
  - vm_compute. reflexivity.
  - reflexivity.
  - simpl. lia.
  - simpl. lia.
  - exists fr'. split; [exact Hrun|]. split; [exact Hidx|].
    unfold counters. rewrite Hres. vm_compute. reflexivity.
Defined.

(** X23, at a sample input. *)
Lemma store_results_keeps_files_witness :
  exists counter,
    CSProfilerMore.store_results 2 "log" false
      (<[CSProfilerMore.partial_file 0 := "first"]>
         (<[CSProfilerMore.complete_file 1 := "second"]> ∅))
    = Some (<[CSProfilerMore.opened_file counter false := "log"]>
              (<[CSProfilerMore.partial_file 0 := "first"]>
                 (<[CSProfilerMore.complete_file 1 := "second"]> ∅))) /\
    counter <= 2 /\
    (<[CSProfilerMore.partial_file 0 := "first"]>
       (<[CSProfilerMore.complete_file 1 := "second"]> ∅) : gmap string string)
      !! CSProfilerMore.complete_file counter = None /\
    (<[CSProfilerMore.partial_file 0 := "first"]>
       (<[CSProfilerMore.complete_file 1 := "second"]> ∅) : gmap string string)
      !! CSProfilerMore.partial_file counter = None.
Proof.
  destruct (store_results_keeps_files
              (<[CSProfilerMore.partial_file 0 := "first"]>
                 (<[CSProfilerMore.complete_file 1 := "second"]> ∅))
              2 "log" false)
    as (counter & Hrun & Hle & Hc & Hp & _).
  - vm_compute. reflexivity.
  - vm_compute. reflexivity.
  - exists counter. split; [exact Hrun|]. split; [exact Hle|].
    split; [exact Hc | exact Hp].
Defined.


End SampleFacts.
